(** * ibs_th1: decoding of IBS-TH1 advertisements and resolution of the
      device address

    A shallow embedding of [ibs_th1.js] (class [IBS_TH1] with its nested
    classes [RealtimeData] and [Config]) and the properties of the
    checksum, the payload decoder, the identifier cache and its
    persistence.

    Conventions of the embedding.
    - A JavaScript number that holds a small integer (a byte, a 16-bit
      word, a loop counter) is a [Z]; the bit operators go through
      [ToInt32] as ECMAScript prescribes.  The two divisions by 100 are
      IEEE binary64 divisions on primitive floats.
    - A JavaScript string is a [string]; text is kept in its UTF-8
      encoding, which is what [fs.writeFileSync] stores and what
      [fs.readFileSync] hands back under the ['utf8'] option.
    - [this.uuid_to_address_] is a JavaScript object used as a map from
      the peripheral's uuid to [null] or to its address: a
      [gmap string (option string)] whose value [None] is [null].  The
      keys are noble's peripheral identifiers (strings of hexadecimal
      digits), so only own properties are looked up.
    - Promises are settled synchronously by every executor of the file, so
      a method returns how its promise settles together with the new
      state; the callback handed to [peripheral.connect] runs in a later
      step of the event loop.
    - The logger changes nothing of what the program does and is left
      out.  [Config] is followed on one file; the path of that file
      ([os.homedir], [path.resolve]) is not modelled. *)

From Stdlib Require Import ZArith List String Ascii Bool Lia Floats Uint63.
From Stdlib.Strings Require Import Byte.
From stdpp Require Import gmap strings list fin_maps.

Set Warnings "-register-all,-inexact-float".

Open Scope Z_scope.

(** ** Numbers of the language *)

Module JS.

(** [ToInt32] of ECMAScript: the operand of a bit operator, reduced
    modulo 2^32 and read as a signed 32-bit integer. *)
Definition ToInt32 (z : Z) : Z :=
  let m := z mod 2 ^ 32 in
  if 2 ^ 31 <=? m then m - 2 ^ 32 else m.

(** [a ^ b] *)
Definition xor (a b : Z) : Z := Z.lxor (ToInt32 a) (ToInt32 b).

(** [a & b] *)
Definition and (a b : Z) : Z := Z.land (ToInt32 a) (ToInt32 b).

(** [a >> n], the sign-propagating shift; the count is taken modulo 32. *)
Definition sar (a n : Z) : Z := Z.shiftr (ToInt32 a) (n mod 32).

(** A number in a condition: every number but zero is truthy. *)
Definition truthy (z : Z) : bool := negb (z =? 0).

(** An integer as a binary64 number (exact below 2^53). *)
Definition to_float (z : Z) : float :=
  if z <? 0 then PrimFloat.opp (PrimFloat.of_uint63 (Uint63.of_Z (- z)))
  else PrimFloat.of_uint63 (Uint63.of_Z z).

(** [a / b] on numbers. *)
Definition div (a b : Z) : float := PrimFloat.div (to_float a) (to_float b).

(** The element of a [Buffer] as a number between 0 and 255. *)
Definition byte_value (b : byte) : Z := Z.of_N (Byte.to_N b).

(** [buffer[i]]: the accesses of the program are all below the length it
    has checked; past the end JavaScript yields [undefined], which no
    path of the program reads. *)
Definition index (buffer : list byte) (i : nat) : Z :=
  match buffer !! i with
  | Some b => byte_value b
  | None => 0
  end.

(** An [Error] object, as the radio library hands one to a callback. *)
Inductive error := Error (message : string).

End JS.

(** ** JSON texts *)

Module JSON.

Inductive value :=
| Null
| Bool (b : bool)
| Number (token : string)
| Str (s : string)
| Array (items : list value)
| Object (props : list (string * value)).

Definition dquote : ascii := "034"%char.
Definition backslash : ascii := "092"%char.

Definition code (c : ascii) : N := N_of_ascii c.

(** [object[key] = v] on the own properties of an object, kept in the
    order of their creation. *)
Fixpoint set_property {A} (key : string) (v : A) (o : list (string * A))
  : list (string * A) :=
  match o with
  | [] => [(key, v)]
  | (k, w) :: o' =>
      if String.eqb key k then (key, v) :: o'
      else (k, w) :: set_property key v o'
  end.

(** *** JSON.stringify *)

Definition hex_digit (n : N) : ascii :=
  if (n <? 10)%N then ascii_of_N (48 + n) else ascii_of_N (87 + n).

Definition escape (c : ascii) : string := String backslash (String c "").

(** QuoteJSONString, one character at a time. *)
Definition quote_char (c : ascii) : string :=
  let n := code c in
  if (n =? 8)%N then escape "b"
  else if (n =? 9)%N then escape "t"
  else if (n =? 10)%N then escape "n"
  else if (n =? 12)%N then escape "f"
  else if (n =? 13)%N then escape "r"
  else if (n =? 34)%N then escape dquote
  else if (n =? 92)%N then escape backslash
  else if (n <? 32)%N then
    String backslash
      (String "u" (String "0" (String "0"
         (String (hex_digit (n / 16)) (String (hex_digit (n mod 16)) "")))))
  else String c "".

Fixpoint quote_chars (s : string) : string :=
  match s with
  | EmptyString => EmptyString
  | String c s' => quote_char c +:+ quote_chars s'
  end.

Definition quote (s : string) : string :=
  String dquote (quote_chars s +:+ String dquote "").

Fixpoint join (sep : string) (l : list string) : string :=
  match l with
  | [] => ""
  | [x] => x
  | x :: l' => x +:+ sep +:+ join sep l'
  end.

Fixpoint stringify (v : value) : string :=
  match v with
  | Null => "null"
  | Bool true => "true"
  | Bool false => "false"
  | Number token => token
  | Str s => quote s
  | Array items => "[" +:+ join "," (map stringify items) +:+ "]"
  | Object props =>
      "{" +:+ join ","
               (map (fun kv => quote (fst kv) +:+ ":" +:+ stringify (snd kv)) props)
          +:+ "}"
  end.

(** The object whose properties are the given strings, in their order. *)
Definition of_strings (m : list (string * string)) : list (string * value) :=
  map (fun kv => (fst kv, Str (snd kv))) m.

(** The text of one member of such an object. *)
Definition member_text (kv : string * string) : string :=
  quote (fst kv) +:+ ":" +:+ quote (snd kv).

(** *** JSON.parse *)

Definition is_ws (c : ascii) : bool :=
  let n := code c in
  (n =? 32)%N || (n =? 9)%N || (n =? 10)%N || (n =? 13)%N.

Fixpoint skip_ws (s : string) : string :=
  match s with
  | String c s' => if is_ws c then skip_ws s' else s
  | EmptyString => EmptyString
  end.

Definition is_digit (c : ascii) : bool :=
  let n := code c in (48 <=? n)%N && (n <=? 57)%N.

Definition hex_value (c : ascii) : option N :=
  let n := code c in
  if (48 <=? n)%N && (n <=? 57)%N then Some (n - 48)%N
  else if (97 <=? n)%N && (n <=? 102)%N then Some (n - 87)%N
  else if (65 <=? n)%N && (n <=? 70)%N then Some (n - 55)%N
  else None.

Definition hex4 (a b c d : ascii) : option N :=
  match hex_value a, hex_value b, hex_value c, hex_value d with
  | Some x, Some y, Some z, Some w => Some (((x * 16 + y) * 16 + z) * 16 + w)%N
  | _, _, _, _ => None
  end.

Definition byte_char (n : N) : ascii := ascii_of_N n.

(** The UTF-8 form of a code unit of the Basic Multilingual Plane (a
    lone surrogate keeps its three-byte form). *)
Definition utf8_unit (u : N) : string :=
  if (u <? 128)%N then String (byte_char u) ""
  else if (u <? 2048)%N then
    String (byte_char (192 + u / 64)) (String (byte_char (128 + u mod 64)) "")
  else
    String (byte_char (224 + u / 4096))
      (String (byte_char (128 + (u / 64) mod 64))
         (String (byte_char (128 + u mod 64)) "")).

(** The UTF-8 form of the code point that a surrogate pair denotes. *)
Definition utf8_pair (hi lo : N) : string :=
  let p := (65536 + (hi - 55296) * 1024 + (lo - 56320))%N in
  String (byte_char (240 + p / 262144))
    (String (byte_char (128 + (p / 4096) mod 64))
       (String (byte_char (128 + (p / 64) mod 64))
          (String (byte_char (128 + p mod 64)) ""))).

Definition is_high_surrogate (u : N) : bool := (55296 <=? u)%N && (u <? 56320)%N.
Definition is_low_surrogate (u : N) : bool := (56320 <=? u)%N && (u <? 57344)%N.

(** The character that a one-letter escape denotes. *)
Definition unescape (e : ascii) : option ascii :=
  let n := code e in
  if (n =? 34)%N then Some dquote
  else if (n =? 92)%N then Some backslash
  else if (n =? 47)%N then Some "/"%char
  else if (n =? 98)%N then Some (byte_char 8)
  else if (n =? 102)%N then Some (byte_char 12)
  else if (n =? 110)%N then Some (byte_char 10)
  else if (n =? 114)%N then Some (byte_char 13)
  else if (n =? 116)%N then Some (byte_char 9)
  else None.

Definition prepend (p : string) (r : option (string * string))
  : option (string * string) :=
  match r with
  | Some (s, rest) => Some (p +:+ s, rest)
  | None => None
  end.

(** The low half of a surrogate pair written as a second escape. *)
Definition low_escape (s : string) : option (N * string) :=
  match s with
  | String b (String u (String g1 (String g2 (String g3 (String g4 rest))))) =>
      if Ascii.eqb b backslash && Ascii.eqb u "u" then
        match hex4 g1 g2 g3 g4 with
        | Some lo => if is_low_surrogate lo then Some (lo, rest) else None
        | None => None
        end
      else None
  | _ => None
  end.

(** The characters of a string token after its opening quote, up to the
    closing quote; the rest of the text comes back with them. *)
Fixpoint parse_chars (s : string) : option (string * string) :=
  match s with
  | EmptyString => None
  | String c rest =>
      if Ascii.eqb c dquote then Some (EmptyString, rest)
      else if Ascii.eqb c backslash then
        match rest with
        | EmptyString => None
        | String e rest1 =>
            match unescape e with
            | Some c' => prepend (String c' "") (parse_chars rest1)
            | None =>
                if Ascii.eqb e "u" then
                  match rest1 with
                  | String h1 (String h2 (String h3 (String h4 rest2))) =>
                      match hex4 h1 h2 h3 h4 with
                      | Some u =>
                          if is_high_surrogate u then
                            match rest2 with
                            | String _ (String _ (String _ (String _
                                (String _ (String _ rest3))))) =>
                                match low_escape rest2 with
                                | Some (lo, _) =>
                                    prepend (utf8_pair u lo) (parse_chars rest3)
                                | None =>
                                    prepend (utf8_unit u) (parse_chars rest2)
                                end
                            | _ => prepend (utf8_unit u) (parse_chars rest2)
                            end
                          else prepend (utf8_unit u) (parse_chars rest2)
                      | None => None
                      end
                  | _ => None
                  end
                else None
            end
        end
      else if (code c <? 32)%N then None
      else prepend (String c "") (parse_chars rest)
  end.

Fixpoint digits (s : string) : string * string :=
  match s with
  | String c rest =>
      if is_digit c then let (d, r) := digits rest in (String c d, r)
      else (EmptyString, s)
  | EmptyString => (EmptyString, EmptyString)
  end.

(** A number token: an optional minus sign, then a zero or a digit from
    1 to 9 with any digits after it, then an optional fraction (a point
    and at least one digit) and an optional exponent (e or E, an
    optional sign and at least one digit). *)
Definition parse_int (s : string) : option (string * string) :=
  match s with
  | String c rest =>
      if Ascii.eqb c "0" then Some (String c "", rest)
      else if is_digit c then
        let (d, r) := digits rest in Some (String c d, r)
      else None
  | EmptyString => None
  end.

Definition parse_frac (s : string) : option (string * string) :=
  match s with
  | String c rest =>
      if Ascii.eqb c "." then
        match digits rest with
        | (EmptyString, _) => None
        | (d, r) => Some (String c d, r)
        end
      else Some (EmptyString, s)
  | EmptyString => Some (EmptyString, s)
  end.

Definition parse_sign (s : string) : string * string :=
  match s with
  | String c rest =>
      if Ascii.eqb c "+" || Ascii.eqb c "-" then (String c "", rest)
      else (EmptyString, s)
  | EmptyString => (EmptyString, s)
  end.

Definition parse_exp (s : string) : option (string * string) :=
  match s with
  | String c rest =>
      if Ascii.eqb c "e" || Ascii.eqb c "E" then
        let (sg, r1) := parse_sign rest in
        match digits r1 with
        | (EmptyString, _) => None
        | (d, r) => Some (String c (sg +:+ d), r)
        end
      else Some (EmptyString, s)
  | EmptyString => Some (EmptyString, s)
  end.

Definition parse_number (s : string) : option (string * string) :=
  let (minus, s0) :=
    match s with
    | String c rest => if Ascii.eqb c "-" then (String c "", rest) else (EmptyString, s)
    | EmptyString => (EmptyString, s)
    end in
  match parse_int s0 with
  | Some (i, s1) =>
      match parse_frac s1 with
      | Some (f, s2) =>
          match parse_exp s2 with
          | Some (e, s3) => Some (minus +:+ i +:+ f +:+ e, s3)
          | None => None
          end
      | None => None
      end
  | None => None
  end.

(** [parse_literal word s] strips [word] from the front of [s]. *)
Fixpoint parse_literal (word s : string) : option string :=
  match word, s with
  | EmptyString, _ => Some s
  | String w word', String c s' =>
      if Ascii.eqb w c then parse_literal word' s' else None
  | String _ _, EmptyString => None
  end.

(** A value, the members of an object after its brace and the elements
    of an array after its bracket.  Each call consumes a character of
    the text, so a fuel of the length of the text never runs out. *)
Fixpoint parse_value (fuel : nat) (s : string) : option (value * string) :=
  match fuel with
  | O => None
  | S fuel' =>
      match skip_ws s with
      | EmptyString => None
      | String c rest =>
          if Ascii.eqb c dquote then
            match parse_chars rest with
            | Some (str, rest') => Some (Str str, rest')
            | None => None
            end
          else if Ascii.eqb c "{" then
            match skip_ws rest with
            | String c' rest' =>
                if Ascii.eqb c' "}" then Some (Object [], rest')
                else parse_members fuel' rest []
            | EmptyString => None
            end
          else if Ascii.eqb c "[" then
            match skip_ws rest with
            | String c' rest' =>
                if Ascii.eqb c' "]" then Some (Array [], rest')
                else parse_elements fuel' rest []
            | EmptyString => None
            end
          else if Ascii.eqb c "t" then
            option_map (fun r => (Bool true, r)) (parse_literal "rue" rest)
          else if Ascii.eqb c "f" then
            option_map (fun r => (Bool false, r)) (parse_literal "alse" rest)
          else if Ascii.eqb c "n" then
            option_map (fun r => (Null, r)) (parse_literal "ull" rest)
          else
            match parse_number (String c rest) with
            | Some (token, rest') => Some (Number token, rest')
            | None => None
            end
      end
  end
with parse_members (fuel : nat) (s : string) (acc : list (string * value))
  : option (value * string) :=
  match fuel with
  | O => None
  | S fuel' =>
      match skip_ws s with
      | EmptyString => None
      | String c rest =>
          if Ascii.eqb c dquote then
            match parse_chars rest with
            | Some (key, rest1) =>
                match skip_ws rest1 with
                | String c1 rest2 =>
                    if Ascii.eqb c1 ":" then
                      match parse_value fuel' rest2 with
                      | Some (v, rest3) =>
                          let acc' := set_property key v acc in
                          match skip_ws rest3 with
                          | String c3 rest4 =>
                              if Ascii.eqb c3 "," then parse_members fuel' rest4 acc'
                              else if Ascii.eqb c3 "}" then Some (Object acc', rest4)
                              else None
                          | EmptyString => None
                          end
                      | None => None
                      end
                    else None
                | EmptyString => None
                end
            | None => None
            end
          else None
      end
  end
with parse_elements (fuel : nat) (s : string) (acc : list value)
  : option (value * string) :=
  match fuel with
  | O => None
  | S fuel' =>
      match parse_value fuel' s with
      | Some (v, rest) =>
          match skip_ws rest with
          | String c rest' =>
              if Ascii.eqb c "," then parse_elements fuel' rest' (acc ++ [v])
              else if Ascii.eqb c "]" then Some (Array (acc ++ [v]), rest')
              else None
          | EmptyString => None
          end
      | None => None
      end
  end.

(** [JSON.parse text]; [None] stands for the SyntaxError it throws. *)
Definition parse (text : string) : option value :=
  match parse_value (S (String.length text)) text with
  | Some (v, rest) =>
      match skip_ws rest with
      | EmptyString => Some v
      | String _ _ => None
      end
  | None => None
  end.

End JSON.

(** ** Settled promises *)

Inductive promise (A : Type) :=
| Resolve (a : A)
| Reject (reason : option string).
Arguments Resolve {A} a.
Arguments Reject {A} reason.

(** ** IBS_TH1.Config: the file that keeps the resolved addresses *)

Module Config.

(** What the file system holds for one configuration: [configDir_] may
    be missing, and inside it the file at [configPath_] may be missing.
    The storage is taken to be writable. *)
Inductive storage :=
| NoDir
| Dir (file : option string).

(** [fs.existsSync(this.configDir_)] *)
Definition existsSync (d : storage) : bool :=
  match d with
  | NoDir => false
  | Dir _ => true
  end.

(** [fs.mkdirSync(this.configDir_, {'mode': 0o700, 'recursive': true})] *)
Definition mkdirSync (d : storage) : storage :=
  match d with
  | NoDir => Dir None
  | Dir file => Dir file
  end.

(** [fs.writeFileSync(this.configPath_, text, ...)]: the whole file is
    replaced.  [save] has created the directory before it writes. *)
Definition writeFileSync (text : string) (d : storage) : storage :=
  match d with
  | NoDir => NoDir
  | Dir _ => Dir (Some text)
  end.

(** [fs.readFileSync(this.configPath_, 'utf8')]; [None] is the error it
    throws when there is no file. *)
Definition readFileSync (d : storage) : option string :=
  match d with
  | NoDir => None
  | Dir file => file
  end.

Definition save (data : JSON.value) (d : storage) : storage :=
  let d := if negb (existsSync d) then mkdirSync d else d in
  writeFileSync (JSON.stringify data) d.

(** The [try] block of [load]: [None] when it throws. *)
Definition try_load (d : storage) : option JSON.value :=
  match readFileSync d with
  | Some text => JSON.parse text
  | None => None
  end.

Definition load (d : storage) : JSON.value * storage :=
  match try_load d with
  | Some data => (data, d)
  | None => (JSON.Object [], save (JSON.Object []) d)
  end.

End Config.

(** ** IBS_TH1 *)

Module IBS_TH1.

Definition DEVICE_NAME : string := "sps".
Definition SERVICE_UUID : string := "fff0".

Module ProbeTypeEnum.
Definition UNKNOWN : Z := 0.
Definition BUILT_IN : Z := 1.
Definition EXTERNAL : Z := 2.
End ProbeTypeEnum.

(** *** getCrc16 *)

(** The body of the inner loop. *)
Definition crc16_round (crc16 : Z) : Z :=
  let tmp := JS.and crc16 0x1 in
  let crc16 := JS.sar crc16 1 in
  if JS.truthy tmp then JS.xor crc16 0xa001 else crc16.

(** [for (let i = 0; i < 8; i++)]: the rounds still to run. *)
Fixpoint crc16_rounds (rounds : nat) (crc16 : Z) : Z :=
  match rounds with
  | O => crc16
  | S rounds' => crc16_rounds rounds' (crc16_round crc16)
  end.

(** The body of the outer loop. *)
Definition crc16_byte (crc16 : Z) (b : byte) : Z :=
  crc16_rounds 8 (JS.xor crc16 (JS.byte_value b)).

Definition getCrc16 (buffer : list byte) : Z :=
  fold_left crc16_byte buffer 0xffff.

(** *** The peripheral of the radio library *)

Record advertisement := {
  localName : option string;
  manufacturerData : option (list byte)
}.

Record peripheral := {
  uuid : string;
  address : string;
  advert : advertisement
}.

(** *** IBS_TH1.RealtimeData *)

(** The fields of a reading.  [uuid] is stored through its setter; its
    getter logs a deprecation warning before it returns the value, which
    the embedding leaves out together with the logger. *)
Module RealtimeData.
Record t := {
  address : string;
  uuid : string;
  date : Z;
  probeType : Z;
  temperature : float;
  humidity : float;
  battery : Z
}.
End RealtimeData.

(** *** The state of an instance *)

(** A call made to the radio. *)
Inductive radio_call :=
| Connect (id : string)
| Disconnect (id : string).

Record state := {
  (** [this.uuid_to_address_] *)
  uuid_to_address_ : gmap string (option string);
  (** the file of [new IBS_TH1.Config('uuid_to_address')] *)
  disk : Config.storage;
  (** the calls made to the radio so far, oldest first *)
  radio : list radio_call;
  (** the peripherals whose [connect] callback has not run yet *)
  connecting : list string;
  (** the readings handed to the subscriber's callback, oldest first *)
  delivered : list RealtimeData.t
}.

Definition set_uuid_to_address_ (m : gmap string (option string)) (st : state) : state :=
  {| uuid_to_address_ := m; disk := disk st; radio := radio st;
     connecting := connecting st; delivered := delivered st |}.

Definition set_disk (d : Config.storage) (st : state) : state :=
  {| uuid_to_address_ := uuid_to_address_ st; disk := d; radio := radio st;
     connecting := connecting st; delivered := delivered st |}.

Definition call_radio (c : radio_call) (st : state) : state :=
  {| uuid_to_address_ := uuid_to_address_ st; disk := disk st;
     radio := radio st ++ [c];
     connecting := connecting st; delivered := delivered st |}.

Definition set_connecting (l : list string) (st : state) : state :=
  {| uuid_to_address_ := uuid_to_address_ st; disk := disk st; radio := radio st;
     connecting := l; delivered := delivered st |}.

Definition callback (d : RealtimeData.t) (st : state) : state :=
  {| uuid_to_address_ := uuid_to_address_ st; disk := disk st; radio := radio st;
     connecting := connecting st; delivered := delivered st ++ [d] |}.

(** The state a constructor leaves, for the cache it has loaded. *)
Definition initial (cache : gmap string (option string)) (d : Config.storage) : state :=
  {| uuid_to_address_ := cache; disk := d; radio := [];
     connecting := []; delivered := [] |}.

(** The cache that the properties of the loaded object give: a property
    that holds a string is an entry with that address, one that holds
    [null] an entry without address.  [None] when a property holds
    anything else: such a value is outside the values that the cache of
    this embedding holds. *)
Fixpoint entries (props : list (string * JSON.value))
  : option (gmap string (option string)) :=
  match props with
  | [] => Some ∅
  | (k, v) :: props' =>
      match entries props' with
      | Some cache =>
          match v with
          | JSON.Str a => Some (<[k := Some a]> cache)
          | JSON.Null => Some (<[k := None]> cache)
          | _ => None
          end
      | None => None
      end
  end.

(** [new IBS_TH1()]: [this.uuid_to_address_] is what
    [new IBS_TH1.Config('uuid_to_address').load()] returns.  [None] when
    the file holds a JSON value that is not an object of strings and
    nulls (see [entries]). *)
Definition constructor (d : Config.storage) : option state :=
  match Config.load d with
  | (JSON.Object props, d') =>
      match entries props with
      | Some cache => Some (initial cache d')
      | None => None
      end
  | (_, _) => None
  end.

(** *** connect_ *)

(** A string in a condition: every string but the empty one is truthy. *)
Definition nonempty (s : string) : bool := negb (String.eqb s "").

(** The loop over [this.uuid_to_address_] that collects the entries that
    are not [null] into [data]. *)
Definition collect (data : list (string * JSON.value)) (entry : string * option string)
  : list (string * JSON.value) :=
  match entry.2 with
  | Some a => JSON.set_property entry.1 (JSON.Str a) data
  | None => data
  end.

Definition resolved_entries (cache : gmap string (option string))
  : list (string * JSON.value) :=
  foldl collect [] (map_to_list cache).

(** The entries of the cache that hold an address, in the order of the
    loop. *)
Definition resolved_pairs (cache : gmap string (option string))
  : list (string * string) :=
  omap (fun entry => (fun a => (entry.1, a)) <$> entry.2) (map_to_list cache).

(** The call [peripheral.connect(...)]: the radio is asked to connect and
    the callback waits. *)
Definition connect_ (p : peripheral) (st : state) : state :=
  set_connecting (connecting st ++ [uuid p]) (call_radio (Connect (uuid p)) st).

(** The callback that [connect_] hands to [peripheral.connect], run by
    the radio with [err].  The promise of [connect_] settles here; its
    caller has dropped it.  The callback given to [peripheral.disconnect]
    only rejects that promise, which is settled by then. *)
Definition connect_callback (p : peripheral) (err : option JS.error) (st : state)
  : promise peripheral * state :=
  if bool_decide (is_Some err) then (Reject (Some "connect result:"), st)
  else
    let st := call_radio (Disconnect (uuid p)) st in
    if bool_decide (is_Some err) || negb (nonempty (uuid p)) then
      (Reject None, set_uuid_to_address_ (delete (uuid p) (uuid_to_address_ st)) st)
    else
      let st := set_uuid_to_address_
                  (<[uuid p := Some (address p)]> (uuid_to_address_ st)) st in
      let data := resolved_entries (uuid_to_address_ st) in
      (Resolve p, set_disk (Config.save (JSON.Object data) (disk st)) st).

(** *** onDiscover_ *)

(** [localName != IBS_TH1.DEVICE_NAME]; a missing name differs. *)
Definition name_differs (name : option string) : bool :=
  match name with
  | Some n => negb (String.eqb n DEVICE_NAME)
  | None => true
  end.

Definition onDiscover_ (p : peripheral) (now : Z) (st : state)
  : promise RealtimeData.t * state :=
  if name_differs (localName (advert p)) then
    (Reject (Some "Discovered => Not a target device"), st)
  else
    match manufacturerData (advert p) with
    | None => (Reject (Some "Discovered => Unexpected advertisement data"), st)
    | Some buffer =>
        if negb (length buffer =? 9)%nat then
          (Reject (Some "Discovered => Unexpected advertisement data"), st)
        else
          let expectedCrc16 := JS.index buffer 6 * 256 + JS.index buffer 5 in
          if negb (expectedCrc16 =? getCrc16 (take 5 buffer)) then
            (Reject (Some "Discovered => CRC error"), st)
          else
            match uuid_to_address_ st !! uuid p with
            | None =>
                let st := set_uuid_to_address_
                            (<[uuid p := None]> (uuid_to_address_ st)) st in
                let st := connect_ p st in
                (Reject (Some "Discovered => Address fetch started. Ignoring."), st)
            | Some None =>
                (Reject (Some "Discovered => Address fetch on flight. Ignoring."), st)
            | Some (Some resolved) =>
                let temperature_raw_value := JS.index buffer 1 * 256 + JS.index buffer 0 in
                let temperature :=
                  if 0x8000 <=? temperature_raw_value
                  then JS.div (temperature_raw_value - 0x10000) 100
                  else JS.div temperature_raw_value 100 in
                let humidity := JS.div (JS.index buffer 3 * 256 + JS.index buffer 2) 100 in
                let probeType :=
                  if JS.index buffer 4 =? 0 then ProbeTypeEnum.BUILT_IN
                  else if JS.index buffer 4 =? 1 then ProbeTypeEnum.EXTERNAL
                  else ProbeTypeEnum.UNKNOWN in
                let battery := JS.index buffer 7 in
                let productionIBS_TH1Data := JS.index buffer 8 in
                (Resolve {| RealtimeData.uuid := uuid p;
                            RealtimeData.date := now;
                            RealtimeData.address := resolved;
                            RealtimeData.temperature := temperature;
                            RealtimeData.humidity := humidity;
                            RealtimeData.probeType := probeType;
                            RealtimeData.battery := battery |}, st)
            end
    end.

(** *** subscribeRealtimeData: the listener of ['discover'] *)

(** [onDiscover_(peripheral).catch(trace).then(d => d && callback(d))]:
    a rejection is logged and leaves nothing to hand over; a reading is
    an object, hence truthy, and goes to the callback. *)
Definition discover_listener (p : peripheral) (now : Z) (st : state) : state :=
  match onDiscover_ p now st with
  | (Resolve realtimeData, st') => callback realtimeData st'
  | (Reject _, st') => st'
  end.

(** *** The event loop *)

(** What the radio can make the instance do while it scans: report a
    peripheral, or complete a connection that was asked for. *)
Inductive event :=
| Discovered (p : peripheral) (now : Z)
| Connected (p : peripheral) (err : option JS.error).

Fixpoint remove_first (id : string) (l : list string) : list string :=
  match l with
  | [] => []
  | x :: l' => if String.eqb id x then l' else x :: remove_first id l'
  end.

(** One turn of the event loop; [None] when the radio cannot raise the
    event (no connection to that peripheral is awaited). *)
Definition handle (e : event) (st : state) : option state :=
  match e with
  | Discovered p now => Some (discover_listener p now st)
  | Connected p err =>
      if bool_decide (uuid p ∈ connecting st) then
        Some (connect_callback p err
                (set_connecting (remove_first (uuid p) (connecting st)) st)).2
      else None
  end.

Fixpoint run (events : list event) (st : state) : option state :=
  match events with
  | [] => Some st
  | e :: events' =>
      match handle e st with
      | Some st' => run events' st'
      | None => None
      end
  end.

(** *** The three states of a cache entry *)

Inductive entry :=
| Absent
| Pending
| Resolved (address : string).

Definition lookup_entry (id : string) (st : state) : entry :=
  match uuid_to_address_ st !! id with
  | None => Absent
  | Some None => Pending
  | Some (Some a) => Resolved a
  end.

(** What the event loop keeps true: a connection is awaited at most once
    for a peripheral, and only while its entry is pending. *)
Definition awaited_are_pending (st : state) : Prop :=
  NoDup (connecting st)
  /\ forall id, id ∈ connecting st -> lookup_entry id st = Pending.

(** The file agrees with the cache on the resolved entries: it holds an
    object that a constructor accepts, and the cache that the constructor
    would take from it has an address for a uuid exactly when the cache
    of this state has that address for it. *)
Definition file_lists_resolved (st : state) : Prop :=
  exists props cache,
    Config.try_load (disk st) = Some (JSON.Object props)
    /\ entries props = Some cache
    /\ forall id a, cache !! id = Some (Some a) <-> lookup_entry id st = Resolved a.

(** The changes of an entry that the protocol allows in one turn. *)
Inductive transition : entry -> entry -> Prop :=
| t_stays e : transition e e
| t_marked : transition Absent Pending
| t_resolved a : transition Pending (Resolved a)
| t_forgotten : transition Pending Absent.

(** The checksum that a frame carries in bytes 5 and 6 against the one of
    its first five bytes. *)
Definition checksum_matches (buffer : list byte) : Prop :=
  JS.index buffer 6 * 256 + JS.index buffer 5 = getCrc16 (take 5 buffer).

(** The advertisements that one of the three filters of [onDiscover_]
    stops: another name, no payload or one that is not 9 bytes long, or a
    checksum that does not match. *)
Definition filtered_out (p : peripheral) : Prop :=
  localName (advert p) <> Some DEVICE_NAME
  \/ manufacturerData (advert p) = None
  \/ exists buffer, manufacturerData (advert p) = Some buffer
       /\ (length buffer <> 9%nat \/ ~ checksum_matches buffer).

(** The advertisements that pass the three filters of [onDiscover_]. *)
Definition passes_filters (p : peripheral) : bool :=
  match localName (advert p), manufacturerData (advert p) with
  | Some n, Some buffer =>
      String.eqb n DEVICE_NAME
      && (length buffer =? 9)%nat
      && (JS.index buffer 6 * 256 + JS.index buffer 5 =? getCrc16 (take 5 buffer))
  | _, _ => false
  end.

End IBS_TH1.

(** ** subscribeRealtimeData and unsubscribeRealtimeData *)

(** The radio library is an event emitter: [noble.on] appends a listener,
    an event runs the listeners of its name in the order of their
    registration, and a listener that throws ends the run.  A subscriber
    is named by a number that stands for its callback. *)
Module Session.
Import IBS_TH1.

(** The listeners of ['stateChange'] that the two methods register. *)
Inductive state_listener :=
| WhenPowered (subscriber : nat)
| Ignore.

Inductive noble_call :=
| StartScanning
| StopScanning.

Record t := {
  instance : state;
  (** [noble.state] *)
  noble_state : string;
  (** the listeners of ['discover'], each with the callback it serves *)
  discover_listeners : list nat;
  state_listeners : list state_listener;
  (** the calls to [noble.startScanning] and [noble.stopScanning] *)
  scans : list noble_call;
  (** the calls of the callbacks, oldest first *)
  received : list (nat * RealtimeData.t);
  (** the errors that listeners have thrown *)
  uncaught : list string
}.

Definition set_instance (st : state) (s : t) : t :=
  {| instance := st; noble_state := noble_state s;
     discover_listeners := discover_listeners s;
     state_listeners := state_listeners s; scans := scans s;
     received := received s; uncaught := uncaught s |}.

Definition set_noble_state (state : string) (s : t) : t :=
  {| instance := instance s; noble_state := state;
     discover_listeners := discover_listeners s;
     state_listeners := state_listeners s; scans := scans s;
     received := received s; uncaught := uncaught s |}.

Definition on_discover (k : nat) (s : t) : t :=
  {| instance := instance s; noble_state := noble_state s;
     discover_listeners := discover_listeners s ++ [k];
     state_listeners := state_listeners s; scans := scans s;
     received := received s; uncaught := uncaught s |}.

Definition on_stateChange (l : state_listener) (s : t) : t :=
  {| instance := instance s; noble_state := noble_state s;
     discover_listeners := discover_listeners s;
     state_listeners := state_listeners s ++ [l]; scans := scans s;
     received := received s; uncaught := uncaught s |}.

Definition call_noble (c : noble_call) (s : t) : t :=
  {| instance := instance s; noble_state := noble_state s;
     discover_listeners := discover_listeners s;
     state_listeners := state_listeners s; scans := scans s ++ [c];
     received := received s; uncaught := uncaught s |}.

Definition call_back (k : nat) (d : RealtimeData.t) (s : t) : t :=
  {| instance := instance s; noble_state := noble_state s;
     discover_listeners := discover_listeners s;
     state_listeners := state_listeners s; scans := scans s;
     received := received s ++ [(k, d)]; uncaught := uncaught s |}.

Definition throw (message : string) (s : t) : t :=
  {| instance := instance s; noble_state := noble_state s;
     discover_listeners := discover_listeners s;
     state_listeners := state_listeners s; scans := scans s;
     received := received s; uncaught := uncaught s ++ [message] |}.

(** [scanStart(callback)]: a listener of ['discover'] is registered and
    the scan is asked for. *)
Definition scanStart (k : nat) (s : t) : t :=
  call_noble StartScanning (on_discover k s).

Definition subscribeRealtimeData (k : nat) (s : t) : t :=
  if String.eqb (noble_state s) "poweredOn" then scanStart k s
  else on_stateChange (WhenPowered k) s.

Definition unsubscribeRealtimeData (s : t) : t :=
  call_noble StopScanning (on_stateChange Ignore s).

(** The listener of ['discover'] that [scanStart] registers for the
    callback [k]. *)
Definition discover_listener (k : nat) (p : peripheral) (now : Z) (s : t) : t :=
  match onDiscover_ p now (instance s) with
  | (Resolve realtimeData, st') => call_back k realtimeData (set_instance st' s)
  | (Reject _, st') => set_instance st' s
  end.

(** The reading [r] as built at the time [t]. *)
Definition at_time (t : Z) (r : RealtimeData.t) : RealtimeData.t :=
  {| RealtimeData.address := RealtimeData.address r;
     RealtimeData.uuid := RealtimeData.uuid r;
     RealtimeData.date := t;
     RealtimeData.probeType := RealtimeData.probeType r;
     RealtimeData.temperature := RealtimeData.temperature r;
     RealtimeData.humidity := RealtimeData.humidity r;
     RealtimeData.battery := RealtimeData.battery r |}.

(** The listeners of ['discover'] run one after the other, and each one
    reads the clock when it builds its reading: [now i] is the time that
    the listener of rank [i] reads. *)
Fixpoint discover_listeners_run (ks : list nat) (i : nat) (p : peripheral)
    (now : nat -> Z) (s : t) : t :=
  match ks with
  | [] => s
  | k :: ks' =>
      discover_listeners_run ks' (S i) p now (discover_listener k p (now i) s)
  end.

(** The radio raises ['discover']. *)
Definition emit_discover (p : peripheral) (now : nat -> Z) (s : t) : t :=
  discover_listeners_run (discover_listeners s) 0 p now s.

(** A listener of ['stateChange'], run with the new state: [inr] when it
    throws.  The listener of [subscribeRealtimeData] calls
    [this.scanStop()] when the state is not ['poweredOn']; the instance
    has no such method ([scanStop] is a constant local to
    [subscribeRealtimeData]), so the call throws a TypeError. *)
Definition state_listener_run (l : state_listener) (state : string) (s : t)
  : t + string :=
  match l with
  | WhenPowered k =>
      if String.eqb state "poweredOn" then inl (scanStart k s)
      else inr "TypeError: this.scanStop is not a function"
  | Ignore => inl s
  end.

Fixpoint state_listeners_run (ls : list state_listener) (state : string) (s : t) : t :=
  match ls with
  | [] => s
  | l :: ls' =>
      match state_listener_run l state s with
      | inl s' => state_listeners_run ls' state s'
      | inr message => throw message s
      end
  end.

(** The radio changes its state and raises ['stateChange']. *)
Definition emit_stateChange (state : string) (s : t) : t :=
  let s := set_noble_state state s in
  state_listeners_run (state_listeners s) state s.

(** A session in which nothing has been registered yet. *)
Definition start (st : state) (state : string) : t :=
  {| instance := st; noble_state := state; discover_listeners := [];
     state_listeners := []; scans := []; received := []; uncaught := [] |}.

End Session.

(** ** The checksum in the words of its specification *)

Module Checksum.

(** XOR a byte into the low byte of the accumulator: the high part is
    kept, the low byte is combined with the input. *)
Definition xor_into_low_byte (acc b : Z) : Z :=
  (acc / 256) * 256 + Z.lxor (acc mod 256) b.

(** One round: shift right, and XOR with 0xA001 when the bit shifted out
    was 1. *)
Definition round (acc : Z) : Z :=
  if Z.testbit acc 0 then Z.lxor (Z.shiftr acc 1) 0xA001 else Z.shiftr acc 1.

(** What one input byte does to the accumulator: it is XORed into the low
    byte, then 8 rounds run. *)
Definition absorb (acc : Z) (b : byte) : Z :=
  Nat.iter 8 round (xor_into_low_byte acc (JS.byte_value b)).

(** Start at 0xFFFF and take the bytes in order. *)
Definition computeChecksum (bytes : list byte) : Z :=
  fold_left absorb bytes 0xFFFF.

(** The accumulator that a round has come from: the top bit of the
    result tells whether 0xA001 was XORed in, that is whether the bit
    shifted out was 1. *)
Definition unround (acc : Z) : Z :=
  if 0x8000 <=? acc then 2 * Z.lxor acc 0xA001 + 1 else 2 * acc.

End Checksum.

(** The values of an unsigned 16-bit word. *)
Definition word16 (z : Z) : Prop := 0 <= z < 2 ^ 16.

(** ** Ranges of numbers *)

Module Range.

(** [lo <= x <= hi] on binary64 numbers; false when [x] is not a number. *)
Definition within (lo hi x : float) : bool :=
  PrimFloat.leb lo x && PrimFloat.leb x hi.

(** [check] holds of the [count] integers from [first] on. *)
Fixpoint all_from (count : nat) (first : Z) (check : Z -> bool) : bool :=
  match count with
  | O => true
  | S count' => check first && all_from count' (first + 1) check
  end.

End Range.

(** ** Sample data: the frames that the specification names *)

Module Samples.
Import IBS_TH1.

(** Temperature raw 2150, humidity raw 5532, built-in probe, battery 87;
    bytes 5 and 6 hold the checksum 0xD6E0 of the first five bytes. *)
Definition frame : list byte := [x66; x08; x9c; x15; x00; xe0; xd6; x57; x00].

(** The same frame with the temperature raw value 0xFF9C and its
    checksum 0xB60A. *)
Definition cold_frame : list byte := [x9c; xff; x9c; x15; x00; x0a; xb6; x57; x00].

Definition sensor (data : list byte) : peripheral :=
  {| uuid := "a1"; address := "AA:BB:CC:DD:EE:FF";
     advert := {| localName := Some "sps"; manufacturerData := Some data |} |}.

(** The frame with a corrupted checksum byte. *)
Definition corrupted_frame : list byte := [x66; x08; x9c; x15; x00; xe1; xd6; x57; x00].

(** A state whose cache knows the address of the sensor. *)
Definition known : state :=
  initial {[ "a1" := Some "AA:BB:CC:DD:EE:FF" ]} (Config.Dir None).

(** A state whose cache is empty. *)
Definition fresh : state := initial ∅ Config.NoDir.

End Samples.

(** * Properties *)

(** ** Arithmetic of the bit operators *)

Section Bits.

Lemma ToInt32_small z : 0 <= z < 2 ^ 31 -> JS.ToInt32 z = z.
Proof.
  intros Hz. unfold JS.ToInt32.
  rewrite Z.mod_small by lia.
  destruct (Z.leb_spec (2 ^ 31) z); lia.
Qed.

Lemma log2_below n a : 0 < n -> 0 <= a < 2 ^ n -> Z.log2 a < n.
Proof.
  intros Hn Ha. destruct (Z.eq_dec a 0) as [-> | Hne].
  - simpl. lia.
  - apply Z.log2_lt_pow2; lia.
Qed.

Lemma lxor_below n a b :
  0 < n -> 0 <= a < 2 ^ n -> 0 <= b < 2 ^ n -> 0 <= Z.lxor a b < 2 ^ n.
Proof.
  intros Hn Ha Hb.
  assert (H0 : 0 <= Z.lxor a b) by (apply Z.lxor_nonneg; lia).
  split; [exact H0 |].
  destruct (Z.eq_dec (Z.lxor a b) 0) as [-> | Hne].
  - apply Z.pow_pos_nonneg; lia.
  - apply Z.log2_lt_pow2; [lia |].
    eapply Z.le_lt_trans; [apply Z.log2_lxor; lia |].
    apply Z.max_lub_lt; apply log2_below; lia.
Qed.

Lemma land_high_low h x : 0 <= x < 2 ^ 8 -> Z.land (h * 2 ^ 8) x = 0.
Proof.
  intros Hx. apply Z.bits_inj'. intros n Hn.
  rewrite Z.land_spec, Z.bits_0.
  destruct (Z.lt_ge_cases n 8) as [Hlt | Hge].
  - rewrite Z.mul_pow2_bits_low by lia. reflexivity.
  - rewrite <- (Z.mod_small x (2 ^ 8)) by lia.
    rewrite Z.mod_pow2_bits_high by lia. apply andb_false_r.
Qed.

Lemma lxor_low_byte acc b :
  0 <= acc -> 0 <= b < 256 ->
  Z.lxor acc b = Checksum.xor_into_low_byte acc b.
Proof.
  intros Hacc Hb. unfold Checksum.xor_into_low_byte.
  change 256 with (2 ^ 8) in *.
  assert (Hlo : 0 <= acc mod 2 ^ 8 < 2 ^ 8) by (apply Z.mod_pos_bound; lia).
  assert (Hx : 0 <= Z.lxor (acc mod 2 ^ 8) b < 2 ^ 8) by (apply lxor_below; lia).
  rewrite (Z.add_nocarry_lxor _ _ (land_high_low _ _ Hx)).
  rewrite <- Z.lxor_assoc.
  rewrite <- (Z.add_nocarry_lxor _ _ (land_high_low _ _ Hlo)).
  rewrite (Z.mul_comm (acc / 2 ^ 8)), <- Z.div_mod by lia.
  reflexivity.
Qed.

Lemma byte_value_range b : 0 <= JS.byte_value b < 256.
Proof.
  unfold JS.byte_value. pose proof (Byte.to_N_bounded b). lia.
Qed.

End Bits.

(** ** getCrc16 *)

Lemma crc16_round_spec crc16 :
  word16 crc16 ->
  IBS_TH1.crc16_round crc16 = Checksum.round crc16
  /\ word16 (IBS_TH1.crc16_round crc16).
Proof.
  unfold word16. intros Hc.
  assert (Hshift : 0 <= Z.shiftr crc16 1 < 2 ^ 15).
  { rewrite Z.shiftr_div_pow2 by lia. change (2 ^ 1) with 2.
    split; [apply Z.div_pos; lia | apply Z.div_lt_upper_bound; lia]. }
  unfold IBS_TH1.crc16_round, Checksum.round, JS.and, JS.sar, JS.xor, JS.truthy.
  rewrite (ToInt32_small crc16) by lia.
  rewrite (ToInt32_small 1) by lia.
  change (1 mod 32) with 1.
  rewrite (ToInt32_small (Z.shiftr crc16 1)) by lia.
  rewrite (ToInt32_small 40961) by lia.
  assert (Hland : Z.land crc16 1 = crc16 mod 2)
    by (apply (Z.land_ones crc16 1); lia).
  rewrite !Hland, Z.bit0_eqb.
  pose proof (Z.mod_pos_bound crc16 2 ltac:(lia)) as Hm.
  destruct (Z.eqb_spec (crc16 mod 2) 0) as [E0 | E0];
    destruct (Z.eqb_spec (crc16 mod 2) 1) as [E1 | E1]; cbn [negb];
    try lia; (split; [reflexivity |]);
    first [lia | apply lxor_below; lia].
Qed.

Lemma crc16_rounds_spec rounds crc16 :
  word16 crc16 ->
  IBS_TH1.crc16_rounds rounds crc16 = Nat.iter rounds Checksum.round crc16
  /\ word16 (IBS_TH1.crc16_rounds rounds crc16).
Proof.
  revert crc16. induction rounds as [| rounds IH]; intros crc16 Hc; [done |].
  destruct (crc16_round_spec crc16 Hc) as [Heq Hw].
  cbn [IBS_TH1.crc16_rounds].
  destruct (IH _ Hw) as [IHeq IHw]. split; [| exact IHw].
  rewrite IHeq, Heq. symmetry. apply Nat.iter_succ_r.
Qed.

Lemma crc16_byte_spec crc16 b :
  word16 crc16 ->
  IBS_TH1.crc16_byte crc16 b = Checksum.absorb crc16 b
  /\ word16 (IBS_TH1.crc16_byte crc16 b).
Proof.
  unfold word16. intros Hc. pose proof (byte_value_range b) as Hb.
  unfold IBS_TH1.crc16_byte, Checksum.absorb, JS.xor.
  rewrite (ToInt32_small crc16), (ToInt32_small (JS.byte_value b)) by lia.
  assert (Hx : word16 (Z.lxor crc16 (JS.byte_value b))).
  { apply lxor_below; lia. }
  destruct (crc16_rounds_spec 8 _ Hx) as [Heq Hw].
  split; [| exact Hw].
  rewrite Heq, lxor_low_byte by lia. reflexivity.
Qed.

Lemma fold_left_refines {A B : Type} (f g : A -> B -> A) (P : A -> Prop) :
  (forall a b, P a -> f a b = g a b /\ P (f a b)) ->
  forall l a, P a -> fold_left f l a = fold_left g l a /\ P (fold_left f l a).
Proof.
  intros Hstep. induction l as [| b l IH]; intros a Ha; cbn [fold_left].
  - split; [reflexivity | exact Ha].
  - destruct (Hstep a b Ha) as [Heq Hp].
    rewrite <- Heq. apply IH, Hp.
Qed.

Lemma fold_crc16_spec buffer crc16 :
  word16 crc16 ->
  fold_left IBS_TH1.crc16_byte buffer crc16 = fold_left Checksum.absorb buffer crc16
  /\ word16 (fold_left IBS_TH1.crc16_byte buffer crc16).
Proof.
  apply (fold_left_refines IBS_TH1.crc16_byte Checksum.absorb word16 crc16_byte_spec).
Qed.

(** C2. [getCrc16] is a total function of the bytes it is given: on every
    byte sequence, the empty one included, it returns the value that the
    stated algorithm computes (start at 0xFFFF; XOR each byte into the low
    byte; eight rounds of shifting right and XORing with 0xA001 when the
    bit shifted out was 1), and that value lies between 0 and 0xFFFF. *)
Theorem getCrc16_correct (buffer : list byte) :
  IBS_TH1.getCrc16 buffer = Checksum.computeChecksum buffer
  /\ 0 <= IBS_TH1.getCrc16 buffer <= 0xFFFF
  /\ IBS_TH1.getCrc16 [] = 0xFFFF.
Proof.
  destruct (fold_crc16_spec buffer 0xffff) as [Heq Hw]; [unfold word16; lia |].
  split; [exact Heq |]. split; [| reflexivity].
  unfold IBS_TH1.getCrc16. unfold word16 in Hw.
  change (2 ^ 16) with 65536 in Hw. lia.
Qed.

(** ** onDiscover_ *)

Section Discover.
Import IBS_TH1.

Lemma name_differs_false name :
  name_differs name = false <-> name = Some DEVICE_NAME.
Proof.
  unfold name_differs. destruct name as [n |]; [| split; discriminate].
  rewrite negb_false_iff, String.eqb_eq. split; congruence.
Qed.

(** What [onDiscover_] does with an advertisement that passes its three
    filters: the cache alone decides. *)
Lemma onDiscover_passed p now st buffer :
  localName (advert p) = Some DEVICE_NAME ->
  manufacturerData (advert p) = Some buffer ->
  length buffer = 9%nat ->
  checksum_matches buffer ->
  onDiscover_ p now st =
    match uuid_to_address_ st !! uuid p with
    | None =>
        (Reject (Some "Discovered => Address fetch started. Ignoring."),
         connect_ p (set_uuid_to_address_ (<[uuid p := None]> (uuid_to_address_ st)) st))
    | Some None =>
        (Reject (Some "Discovered => Address fetch on flight. Ignoring."), st)
    | Some (Some resolved) =>
        (Resolve
           {| RealtimeData.address := resolved;
              RealtimeData.uuid := uuid p;
              RealtimeData.date := now;
              RealtimeData.probeType :=
                if JS.index buffer 4 =? 0 then ProbeTypeEnum.BUILT_IN
                else if JS.index buffer 4 =? 1 then ProbeTypeEnum.EXTERNAL
                else ProbeTypeEnum.UNKNOWN;
              RealtimeData.temperature :=
                if 0x8000 <=? JS.index buffer 1 * 256 + JS.index buffer 0
                then JS.div (JS.index buffer 1 * 256 + JS.index buffer 0 - 0x10000) 100
                else JS.div (JS.index buffer 1 * 256 + JS.index buffer 0) 100;
              RealtimeData.humidity :=
                JS.div (JS.index buffer 3 * 256 + JS.index buffer 2) 100;
              RealtimeData.battery := JS.index buffer 7 |}, st)
    end.
Proof.
  intros Hname Hdata Hlen Hcrc. unfold onDiscover_.
  apply name_differs_false in Hname. rewrite Hname, Hdata, Hlen.
  cbn [Nat.eqb negb]. unfold checksum_matches in Hcrc.
  rewrite Hcrc, Z.eqb_refl. cbn [negb]. reflexivity.
Qed.

Lemma onDiscover_filtered p now st :
  filtered_out p ->
  exists reason, onDiscover_ p now st = (Reject (Some reason), st)
    /\ (reason = "Discovered => Not a target device"
        \/ reason = "Discovered => Unexpected advertisement data"
        \/ reason = "Discovered => CRC error").
Proof.
  intros Hf. unfold onDiscover_.
  destruct (name_differs (localName (advert p))) eqn:Hname; [eauto 6 |].
  apply name_differs_false in Hname.
  destruct (manufacturerData (advert p)) as [buffer |] eqn:Hdata; [| eauto 6].
  destruct (Nat.eqb_spec (length buffer) 9) as [Hlen | Hlen]; cbn [negb]; [| eauto 6].
  destruct (Z.eqb_spec (JS.index buffer 6 * 256 + JS.index buffer 5)
              (getCrc16 (take 5 buffer))) as [Hcrc | Hcrc]; cbn [negb]; [| eauto 6].
  exfalso. destruct Hf as [Hf | [Hf | (buffer' & Hb & Hf)]]; [congruence.. |].
  assert (buffer' = buffer) as -> by congruence.
  destruct Hf as [Hf | Hf]; [congruence |]. apply Hf, Hcrc.
Qed.

(** Whatever [onDiscover_] resolves with went through the three filters
    and met a resolved entry; the state is left as it was. *)
Lemma onDiscover_resolve_inv p now st r st' :
  onDiscover_ p now st = (Resolve r, st') ->
  exists buffer resolved,
    localName (advert p) = Some DEVICE_NAME
    /\ manufacturerData (advert p) = Some buffer
    /\ length buffer = 9%nat
    /\ checksum_matches buffer
    /\ uuid_to_address_ st !! uuid p = Some (Some resolved)
    /\ st' = st.
Proof.
  intros Hr.
  destruct (name_differs (localName (advert p))) eqn:Hname.
  { unfold onDiscover_ in Hr. rewrite Hname in Hr. discriminate. }
  apply name_differs_false in Hname.
  destruct (manufacturerData (advert p)) as [buffer |] eqn:Hdata.
  2: { unfold onDiscover_ in Hr. rewrite Hdata in Hr.
       destruct (name_differs _); discriminate. }
  destruct (Nat.eqb_spec (length buffer) 9) as [Hlen | Hlen].
  2: { unfold onDiscover_ in Hr. rewrite Hdata in Hr.
       destruct (name_differs _); [discriminate |].
       destruct (Nat.eqb_spec (length buffer) 9); [done | discriminate]. }
  destruct (Z.eq_dec (JS.index buffer 6 * 256 + JS.index buffer 5)
              (getCrc16 (take 5 buffer))) as [Hcrc | Hcrc].
  2: { unfold onDiscover_ in Hr. rewrite Hdata in Hr.
       destruct (name_differs _); [discriminate |].
       destruct (negb _); [discriminate |].
       destruct (Z.eqb_spec (JS.index buffer 6 * 256 + JS.index buffer 5)
                   (getCrc16 (take 5 buffer))); [done | discriminate]. }
  rewrite (onDiscover_passed p now st buffer Hname Hdata Hlen Hcrc) in Hr.
  exists buffer.
  destruct (uuid_to_address_ st !! uuid p) as [[resolved |] |]; try discriminate.
  exists resolved. injection Hr as _ <-. done.
Qed.

End Discover.

(** ** The payload decoder *)

Section Decoder.
Import IBS_TH1.

(** Replacing byte 8 of a frame leaves the bytes before it alone. *)
Lemma index_replace_last (buffer : list byte) (b : byte) (i : nat) :
  length buffer = 9%nat -> (i < 8)%nat ->
  JS.index (take 8 buffer ++ [b]) i = JS.index buffer i.
Proof.
  intros Hlen Hi. unfold JS.index.
  rewrite lookup_app_l by (rewrite length_take; lia).
  rewrite lookup_take_lt by lia. reflexivity.
Qed.

Lemma take5_replace_last (buffer : list byte) (b : byte) :
  length buffer = 9%nat -> take 5 (take 8 buffer ++ [b]) = take 5 buffer.
Proof.
  intros Hlen. rewrite take_app_le by (rewrite length_take; lia).
  rewrite take_take. reflexivity.
Qed.

Lemma length_replace_last (buffer : list byte) (b : byte) :
  length buffer = 9%nat -> length (take 8 buffer ++ [b]) = 9%nat.
Proof.
  intros Hlen. rewrite length_app, length_take. cbn [length]. lia.
Qed.

(** C1. For every 9-byte frame that passes the name, length and checksum
    filters and whose uuid is resolved, [onDiscover_] resolves with a
    reading whose temperature is the little-endian 16-bit value of bytes
    0-1, less 0x10000 when it is at least 0x8000, divided by 100; whose
    humidity is the little-endian 16-bit value of bytes 2-3 divided by 100
    with no sign extension; and whose battery is byte 7.  Byte 8 is not
    used: the frame with any other byte 8 gives the same reading.  Raw
    0xFF9C yields -1.00, and the frame with raw temperature 2150, raw
    humidity 5532, probe byte 0 and battery 87 decodes to temperature
    21.5, humidity 55.32, the built-in probe and battery 87. *)
Theorem decoded_reading p now st buffer address :
  localName (advert p) = Some DEVICE_NAME ->
  manufacturerData (advert p) = Some buffer ->
  length buffer = 9%nat ->
  checksum_matches buffer ->
  uuid_to_address_ st !! uuid p = Some (Some address) ->
  exists r,
    onDiscover_ p now st = (Resolve r, st)
    /\ (let raw := JS.index buffer 1 * 256 + JS.index buffer 0 in
        RealtimeData.temperature r
        = JS.div (if 0x8000 <=? raw then raw - 0x10000 else raw) 100)
    /\ RealtimeData.humidity r
       = JS.div (JS.index buffer 3 * 256 + JS.index buffer 2) 100
    /\ RealtimeData.battery r = JS.index buffer 7
    /\ (forall p' b8,
          uuid p' = uuid p ->
          localName (advert p') = Some DEVICE_NAME ->
          manufacturerData (advert p') = Some (take 8 buffer ++ [b8]) ->
          onDiscover_ p' now st = (Resolve r, st))
    /\ onDiscover_ (Samples.sensor Samples.frame) now Samples.known
       = (Resolve
            {| RealtimeData.address := "AA:BB:CC:DD:EE:FF"; RealtimeData.uuid := "a1";
               RealtimeData.date := now; RealtimeData.probeType := ProbeTypeEnum.BUILT_IN;
               RealtimeData.temperature := 21.5; RealtimeData.humidity := 55.32;
               RealtimeData.battery := 87 |}, Samples.known)
    /\ JS.index Samples.cold_frame 1 * 256 + JS.index Samples.cold_frame 0 = 0xFF9C
    /\ (exists r', onDiscover_ (Samples.sensor Samples.cold_frame) now Samples.known
                   = (Resolve r', Samples.known)
                   /\ RealtimeData.temperature r' = (-1)%float).
Proof.
  intros Hname Hdata Hlen Hcrc Hres.
  rewrite (onDiscover_passed p now st buffer Hname Hdata Hlen Hcrc), Hres.
  eexists. split; [reflexivity |]. cbn [RealtimeData.temperature
    RealtimeData.humidity RealtimeData.battery].
  split; [destruct (0x8000 <=? _); reflexivity |].
  split; [reflexivity |]. split; [reflexivity |].
  split.
  { intros p' b8 Huuid Hname' Hdata'.
    rewrite (onDiscover_passed p' now st _ Hname' Hdata'
               (length_replace_last buffer b8 Hlen)).
    - rewrite Huuid, Hres.
      rewrite !(index_replace_last buffer b8) by lia. reflexivity.
    - unfold checksum_matches.
      rewrite take5_replace_last, !index_replace_last by lia. exact Hcrc. }
  split; [vm_compute; reflexivity |].
  split; [reflexivity |].
  eexists. split; vm_compute; reflexivity.
Qed.

(** The frame of the specification, decoded. *)
Lemma decoded_reading_witness :
  exists r,
    onDiscover_ (Samples.sensor Samples.frame) 1000 Samples.known
    = (Resolve r, Samples.known)
    /\ RealtimeData.temperature r = 21.5%float
    /\ RealtimeData.humidity r = 55.32%float
    /\ RealtimeData.battery r = 87.
Proof.
  destruct (decoded_reading (Samples.sensor Samples.frame) 1000 Samples.known
              Samples.frame "AA:BB:CC:DD:EE:FF")
    as (r & Hr & Ht & Hh & Hb & _);
    [reflexivity | reflexivity | reflexivity | vm_compute; reflexivity
    | vm_compute; reflexivity |].
  exists r. split; [exact Hr |]. rewrite Ht, Hh, Hb.
  split; [vm_compute; reflexivity |]. split; vm_compute; reflexivity.
Defined.

End Decoder.

(** ** What the filters and the cache let through *)

Section Filters.
Import IBS_TH1.

(** C3. A discovery event whose advertised name is not the target name,
    whose payload is missing or not 9 bytes long, or whose checksum over
    bytes 0-4 differs from the little-endian value of bytes 5-6, is
    dropped: [onDiscover_] rejects with the message of a filter before it
    decodes anything, the state (the cache, the file, the calls to the
    radio) is unchanged, and the subscriber's callback is not called. *)
Theorem filtered_event_dropped p now st :
  filtered_out p ->
  (exists reason,
      onDiscover_ p now st = (Reject (Some reason), st)
      /\ (reason = "Discovered => Not a target device"
          \/ reason = "Discovered => Unexpected advertisement data"
          \/ reason = "Discovered => CRC error"))
  /\ discover_listener p now st = st
  /\ uuid_to_address_ (discover_listener p now st) = uuid_to_address_ st
  /\ delivered (discover_listener p now st) = delivered st.
Proof.
  intros Hf. destruct (onDiscover_filtered p now st Hf) as (reason & Hr & Hreason).
  assert (Hl : discover_listener p now st = st).
  { unfold discover_listener. rewrite Hr. reflexivity. }
  split; [eauto |]. rewrite Hl. done.
Qed.

(** A frame whose checksum byte is corrupted is dropped. *)
Lemma filtered_event_dropped_witness :
  onDiscover_ (Samples.sensor Samples.corrupted_frame) 0 Samples.known
  = (Reject (Some "Discovered => CRC error"), Samples.known)
  /\ discover_listener (Samples.sensor Samples.corrupted_frame) 0 Samples.known
     = Samples.known.
Proof.
  destruct (filtered_event_dropped (Samples.sensor Samples.corrupted_frame) 0
              Samples.known) as [_ [Hl _]].
  { right. right. eexists. split; [reflexivity |]. right.
    unfold checksum_matches. vm_compute. discriminate. }
  split; [vm_compute; reflexivity | exact Hl].
Defined.

(** C10. The probe type of a delivered reading is not the wire byte: byte
    0 gives BUILT_IN = 1, byte 1 gives EXTERNAL = 2 and any other byte
    gives UNKNOWN = 0.  So the probe type is 0, 1 or 2, it never equals
    byte 4, and were it to equal byte 4 that byte would be outside {0, 1}
    and mapped to 0. *)
Theorem probe_type_of_wire_byte p now st r st' :
  onDiscover_ p now st = (Resolve r, st') ->
  exists buffer,
    manufacturerData (advert p) = Some buffer
    /\ (JS.index buffer 4 = 0 -> RealtimeData.probeType r = 1)
    /\ (JS.index buffer 4 = 1 -> RealtimeData.probeType r = 2)
    /\ (JS.index buffer 4 <> 0 -> JS.index buffer 4 <> 1 ->
        RealtimeData.probeType r = 0)
    /\ (RealtimeData.probeType r = 0 \/ RealtimeData.probeType r = 1
        \/ RealtimeData.probeType r = 2)
    /\ RealtimeData.probeType r <> JS.index buffer 4
    /\ (RealtimeData.probeType r = JS.index buffer 4 ->
        JS.index buffer 4 <> 0 /\ JS.index buffer 4 <> 1
        /\ RealtimeData.probeType r = 0).
Proof.
  intros Hr.
  destruct (onDiscover_resolve_inv p now st r st' Hr)
    as (buffer & address & Hname & Hdata & Hlen & Hcrc & Hres & ->).
  rewrite (onDiscover_passed p now st buffer Hname Hdata Hlen Hcrc), Hres in Hr.
  injection Hr as <-. exists buffer. split; [exact Hdata |].
  cbn [RealtimeData.probeType].
  unfold ProbeTypeEnum.BUILT_IN, ProbeTypeEnum.EXTERNAL, ProbeTypeEnum.UNKNOWN.
  destruct (Z.eqb_spec (JS.index buffer 4) 0) as [E0 | E0];
    [| destruct (Z.eqb_spec (JS.index buffer 4) 1) as [E1 | E1]]; lia.
Qed.

(** The built-in probe of the sample frame is delivered as 1. *)
Lemma probe_type_of_wire_byte_witness :
  exists r, onDiscover_ (Samples.sensor Samples.frame) 0 Samples.known
            = (Resolve r, Samples.known)
            /\ JS.index Samples.frame 4 = 0
            /\ RealtimeData.probeType r = 1.
Proof.
  eexists. split; [vm_compute; reflexivity |]. split; [reflexivity |].
  destruct (probe_type_of_wire_byte (Samples.sensor Samples.frame) 0 Samples.known
              _ Samples.known ltac:(vm_compute; reflexivity))
    as (buffer & Hdata & H0 & _).
  injection Hdata as <-. apply H0. reflexivity.
Defined.

End Filters.

(** ** JSON texts: what is written can be read back *)

Section JSONRoundTrip.
Import JSON.

Lemma append_cons (x : ascii) (a b : string) :
  String x a +:+ b = String x (a +:+ b).
Proof. reflexivity. Qed.

Lemma append_assoc (a b c : string) : (a +:+ b) +:+ c = a +:+ (b +:+ c).
Proof.
  induction a as [| x a IH]; [reflexivity |].
  rewrite !append_cons. f_equal. exact IH.
Qed.

Lemma length_append (a b : string) :
  String.length (a +:+ b) = (String.length a + String.length b)%nat.
Proof.
  induction a as [| x a IH]; [reflexivity |].
  rewrite append_cons. cbn [String.length]. by rewrite IH.
Qed.

(** Reading back one quoted character gives the character. *)
Lemma parse_chars_quote_char (c : ascii) (tail : string) :
  parse_chars (quote_char c +:+ tail) = prepend (String c "") (parse_chars tail).
Proof.
  destruct c as [[] [] [] [] [] [] [] []]; reflexivity.
Qed.

Lemma parse_chars_quote_chars (s rest : string) :
  parse_chars (quote_chars s +:+ String dquote rest) = Some (s, rest).
Proof.
  induction s as [| c s IH]; [reflexivity |].
  cbn [quote_chars]. rewrite append_assoc, parse_chars_quote_char, IH.
  reflexivity.
Qed.

Lemma quote_append (s rest : string) :
  quote s +:+ rest = String dquote (quote_chars s +:+ String dquote rest).
Proof.
  unfold quote. rewrite append_cons, append_assoc. reflexivity.
Qed.

(** A quoted string is read back as the string, with any fuel. *)
Lemma parse_value_quote (fuel : nat) (s rest : string) :
  parse_value (S fuel) (quote s +:+ rest) = Some (Str s, rest).
Proof.
  rewrite quote_append. cbn [parse_value skip_ws].
  change (is_ws dquote) with false. cbn match.
  change (Ascii.eqb dquote dquote) with true. cbn match.
  rewrite parse_chars_quote_chars. reflexivity.
Qed.

(** The text between the braces of an object of strings. *)
Lemma stringify_of_strings (m : list (string * string)) :
  stringify (Object (of_strings m))
  = "{" +:+ join "," (map (fun kv => quote kv.1 +:+ ":" +:+ quote kv.2) m) +:+ "}".
Proof.
  cbn [stringify]. unfold of_strings. rewrite map_map. reflexivity.
Qed.

(** One member, a key and a string, followed by the character [c]. *)
Lemma parse_members_member fuel k a c tail acc :
  is_ws c = false ->
  parse_members (S (S fuel)) (quote k +:+ ":" +:+ quote a +:+ String c tail) acc
  = if Ascii.eqb c ","
    then parse_members (S fuel) tail (set_property k (Str a) acc)
    else if Ascii.eqb c "}"
         then Some (Object (set_property k (Str a) acc), tail)
         else None.
Proof.
  intros Hc. rewrite quote_append.
  remember (S fuel) as f eqn:Hf.
  cbn [parse_members skip_ws].
  change (is_ws dquote) with false. cbn match.
  change (Ascii.eqb dquote dquote) with true. cbn match.
  rewrite parse_chars_quote_chars. cbn match.
  rewrite append_cons. cbn [skip_ws].
  change (is_ws ":") with false. cbn match.
  change (Ascii.eqb ":" ":") with true. cbn match.
  change ("" +:+ quote a +:+ String c tail) with (quote a +:+ String c tail).
  subst f. rewrite parse_value_quote. cbn match.
  cbn [skip_ws]. rewrite Hc. reflexivity.
Qed.

Lemma set_property_fresh {A} (k : string) (v : A) (o : list (string * A)) :
  k ∉ o.*1 -> set_property k v o = o ++ [(k, v)].
Proof.
  induction o as [| [k' w] o IH]; intros Hk; [reflexivity |].
  cbn [set_property]. rewrite fmap_cons, not_elem_of_cons in Hk.
  destruct Hk as [Hne Hk]. cbn [fst] in Hne.
  destruct (String.eqb_spec k k') as [-> | _]; [done |].
  rewrite IH by exact Hk. reflexivity.
Qed.

Lemma member_text_nonempty kv : (1 <= String.length (member_text kv))%nat.
Proof.
  unfold member_text. rewrite quote_append. cbn [String.length]. lia.
Qed.

Lemma length_join_members (m : list (string * string)) :
  (length m <= String.length (join "," (map member_text m)))%nat.
Proof.
  induction m as [| kv m IH]; [reflexivity |].
  pose proof (member_text_nonempty kv) as Hkv.
  destruct m as [| kv' m]; [cbn [map join length]; lia |].
  change (join "," (map member_text (kv :: kv' :: m)))
    with (member_text kv +:+ "," +:+ join "," (map member_text (kv' :: m))).
  rewrite !length_append. cbn [length] in *. lia.
Qed.

(** The members of an object of strings are read back in their order,
    after the properties read so far, when no key repeats. *)
Lemma parse_members_of_strings (m : list (string * string)) :
  forall acc fuel rest,
  m <> [] ->
  NoDup m.*1 ->
  (forall k, k ∈ m.*1 -> k ∉ acc.*1) ->
  (length m < fuel)%nat ->
  parse_members fuel (join "," (map member_text m) +:+ String "}" rest) acc
  = Some (Object (acc ++ of_strings m), rest).
Proof.
  induction m as [| [k a] m IH]; intros acc fuel rest Hne Hnd Hfresh Hfuel; [done |].
  assert (Hk : k ∉ acc.*1) by (apply Hfresh; rewrite fmap_cons; left).
  rewrite fmap_cons, NoDup_cons in Hnd. destruct Hnd as [Hkm Hnd].
  destruct fuel as [| [| fuel]]; [cbn [length] in Hfuel; lia.. |].
  destruct m as [| kv' m].
  - change (join "," (map member_text [(k, a)])) with (quote k +:+ ":" +:+ quote a).
    rewrite !append_assoc, parse_members_member by reflexivity.
    change (Ascii.eqb "}" ",") with false. change (Ascii.eqb "}" "}") with true.
    cbn match. rewrite set_property_fresh by exact Hk. reflexivity.
  - change (join "," (map member_text ((k, a) :: kv' :: m)))
      with ((quote k +:+ ":" +:+ quote a) +:+ ","
              +:+ join "," (map member_text (kv' :: m))).
    rewrite !append_assoc.
    change ("," +:+ join "," (map member_text (kv' :: m)) +:+ String "}" rest)
      with (String "," (join "," (map member_text (kv' :: m)) +:+ String "}" rest)).
    rewrite parse_members_member by reflexivity.
    change (Ascii.eqb "," ",") with true. cbn match.
    rewrite set_property_fresh by exact Hk.
    rewrite IH; [| done | exact Hnd | | cbn [length] in *; lia].
    + rewrite <- app_assoc. reflexivity.
    + intros k' Hk'. rewrite fmap_app, elem_of_app. intros [Hin | Hin].
      * apply (Hfresh k'); [rewrite fmap_cons; right; exact Hk' | exact Hin].
      * cbn in Hin. apply list_elem_of_singleton in Hin. subst k'. done.
Qed.

(** [JSON.parse] undoes [JSON.stringify] on an object whose values are
    strings and whose keys are distinct. *)
Lemma parse_stringify_of_strings (m : list (string * string)) :
  NoDup m.*1 ->
  parse (stringify (Object (of_strings m))) = Some (Object (of_strings m)).
Proof.
  intros Hnd. rewrite stringify_of_strings. unfold parse.
  change (join "," (map (fun kv => quote kv.1 +:+ ":" +:+ quote kv.2) m))
    with (join "," (map member_text m)).
  pose proof (length_join_members m) as Hlen.
  set (text := "{" +:+ join "," (map member_text m) +:+ "}") in *.
  assert (Hfuel : (length m < String.length text)%nat).
  { unfold text. rewrite append_cons. cbn [String.length].
    change ("" +:+ join "," (map member_text m) +:+ "}")
      with (join "," (map member_text m) +:+ "}").
    rewrite length_append. lia. }
  remember (String.length text) as fuel eqn:Hf. clear Hf. unfold text.
  rewrite append_cons.
  change ("" +:+ join "," (map member_text m) +:+ "}")
    with (join "," (map member_text m) +:+ "}").
  cbn [parse_value skip_ws].
  change (is_ws "{") with false. cbn match.
  change (Ascii.eqb "{" dquote) with false. cbn match.
  change (Ascii.eqb "{" "{") with true. cbn match.
  destruct m as [| [k a] m].
  - reflexivity.
  - pose proof (parse_members_of_strings ((k, a) :: m) [] fuel ""
                  ltac:(done) Hnd ltac:(intros ? _; apply not_elem_of_nil) Hfuel)
      as Hmem.
    assert (Hhead : exists y,
               join "," (map member_text ((k, a) :: m)) +:+ "}" = String dquote y).
    { destruct m as [| kv' m].
      - change (join "," (map member_text [(k, a)])) with (quote k +:+ ":" +:+ quote a).
        rewrite append_assoc, quote_append. eauto.
      - change (join "," (map member_text ((k, a) :: kv' :: m)))
          with ((quote k +:+ ":" +:+ quote a) +:+ ","
                  +:+ join "," (map member_text (kv' :: m))).
        rewrite !append_assoc, quote_append. eauto. }
    destruct Hhead as [y Hy]. rewrite Hy in Hmem |- *.
    cbn [skip_ws]. change (is_ws dquote) with false. cbn match.
    change (Ascii.eqb dquote "}") with false. cbn match.
    rewrite Hmem. reflexivity.
Qed.

End JSONRoundTrip.

(** ** Config: load and save *)

Section Persistence.

Lemma save_writes data d :
  Config.save data d = Config.Dir (Some (JSON.stringify data)).
Proof. destruct d; reflexivity. Qed.

Lemma load_after_save data d :
  JSON.parse (JSON.stringify data) = Some data ->
  Config.load (Config.save data d) = (data, Config.save data d).
Proof.
  intros Hparse. rewrite save_writes. unfold Config.load, Config.try_load.
  cbn [Config.readFileSync]. rewrite Hparse. reflexivity.
Qed.

(** C8. When [load] fails, because the file is missing or because its
    text is not JSON, it returns the empty mapping after it has saved the
    empty mapping; the next [load] reads that file and succeeds with the
    empty mapping. *)
Theorem load_failure_self_heals (d : Config.storage) :
  (Config.readFileSync d = None
   \/ exists text, Config.readFileSync d = Some text /\ JSON.parse text = None) ->
  Config.load d = (JSON.Object [], Config.save (JSON.Object []) d)
  /\ Config.readFileSync (Config.load d).2 = Some "{}"
  /\ Config.try_load (Config.load d).2 = Some (JSON.Object [])
  /\ Config.load (Config.load d).2 = (JSON.Object [], (Config.load d).2).
Proof.
  intros Hfail.
  assert (Htry : Config.try_load d = None).
  { unfold Config.try_load. destruct Hfail as [-> | (text & -> & Hp)]; done. }
  assert (Hload : Config.load d = (JSON.Object [], Config.save (JSON.Object []) d)).
  { unfold Config.load. rewrite Htry. reflexivity. }
  rewrite Hload. cbn [snd]. rewrite save_writes.
  split; [reflexivity |]. split; [reflexivity |]. split; reflexivity.
Qed.

(** A missing directory and a file that holds no JSON text. *)
Lemma load_failure_self_heals_witness :
  Config.load Config.NoDir = (JSON.Object [], Config.Dir (Some "{}"))
  /\ Config.load (Config.Dir (Some "{oops")) = (JSON.Object [], Config.Dir (Some "{}"))
  /\ Config.load (Config.Dir (Some "{}")) = (JSON.Object [], Config.Dir (Some "{}")).
Proof.
  split; [| split].
  - apply (load_failure_self_heals Config.NoDir). left. reflexivity.
  - apply (load_failure_self_heals (Config.Dir (Some "{oops"))).
    right. eexists. split; reflexivity.
  - reflexivity.
Defined.

(** C9. For every mapping from strings to strings, [save] followed by
    [load] gives the mapping back, and saving the same mapping twice
    leaves the bytes that the first save wrote: the file holds the JSON
    text of the mapping whatever it held before. *)
Theorem save_then_load (m : list (string * string)) (d : Config.storage) :
  NoDup m.*1 ->
  let data := JSON.Object (JSON.of_strings m) in
  Config.load (Config.save data d) = (data, Config.save data d)
  /\ Config.save data (Config.save data d) = Config.save data d
  /\ Config.readFileSync (Config.save data d) = Some (JSON.stringify data)
  /\ (forall d', Config.save data d' = Config.save data d).
Proof.
  intros Hnd data.
  split; [apply load_after_save, parse_stringify_of_strings, Hnd |].
  rewrite !save_writes. split; [reflexivity |]. split; [reflexivity |].
  intros d'. apply save_writes.
Qed.

Lemma save_then_load_witness :
  Config.load
    (Config.save (JSON.Object (JSON.of_strings [("a1", "AA:BB:CC:DD:EE:FF"); ("b2", "")]))
                 Config.NoDir)
  = (JSON.Object [("a1", JSON.Str "AA:BB:CC:DD:EE:FF"); ("b2", JSON.Str "")],
     Config.Dir (Some (JSON.stringify
        (JSON.Object [("a1", JSON.Str "AA:BB:CC:DD:EE:FF"); ("b2", JSON.Str "")])))).
Proof.
  refine (proj1 (save_then_load [("a1", "AA:BB:CC:DD:EE:FF"); ("b2", "")]
                   Config.NoDir _)).
  refine (bool_decide_unpack _ _). vm_compute. exact I.
Defined.

End Persistence.

(** ** The identifier cache *)

Section Cache.
Import IBS_TH1.

Lemma passes_filters_spec p :
  passes_filters p = true <->
  exists buffer,
    localName (advert p) = Some DEVICE_NAME
    /\ manufacturerData (advert p) = Some buffer
    /\ length buffer = 9%nat
    /\ checksum_matches buffer.
Proof.
  unfold passes_filters, checksum_matches.
  destruct (localName (advert p)) as [n |];
    destruct (manufacturerData (advert p)) as [buffer |].
  - rewrite !andb_true_iff, String.eqb_eq, Nat.eqb_eq, Z.eqb_eq. split.
    + intros [[-> Hlen] Hcrc]. eauto.
    + intros (buffer' & Hn & Hb & Hlen & Hcrc).
      injection Hn as ->. injection Hb as <-. done.
  - split; [discriminate | intros (? & _ & ? & _); discriminate].
  - split; [discriminate | intros (? & ? & _); discriminate].
  - split; [discriminate | intros (? & ? & _); discriminate].
Qed.

(** What [onDiscover_] does to the state: nothing, unless the entry is
    absent; then it marks the entry pending and asks for a connection. *)
Lemma onDiscover_state p now st :
  (onDiscover_ p now st).2 = st
  \/ (uuid_to_address_ st !! uuid p = None
      /\ (onDiscover_ p now st).2
         = connect_ p (set_uuid_to_address_ (<[uuid p := None]> (uuid_to_address_ st)) st)).
Proof.
  unfold onDiscover_.
  destruct (name_differs _); [by left |].
  destruct (manufacturerData _) as [buffer |]; [| by left].
  destruct (negb (_ =? _)%nat); [by left |].
  destruct (negb (_ =? _)); [by left |].
  destruct (uuid_to_address_ st !! uuid p) as [[a |] |]; [by left | by left |].
  right. done.
Qed.

Lemma discover_listener_cache p now st :
  uuid_to_address_ (discover_listener p now st)
  = uuid_to_address_ (onDiscover_ p now st).2
  /\ connecting (discover_listener p now st) = connecting (onDiscover_ p now st).2
  /\ radio (discover_listener p now st) = radio (onDiscover_ p now st).2
  /\ disk (discover_listener p now st) = disk (onDiscover_ p now st).2.
Proof.
  unfold discover_listener. destruct (onDiscover_ p now st) as [[r | reason] st']; done.
Qed.

Lemma lookup_entry_absent id st :
  lookup_entry id st = Absent <-> uuid_to_address_ st !! id = None.
Proof.
  unfold lookup_entry. destruct (uuid_to_address_ st !! id) as [[a |] |]; done.
Qed.

Lemma lookup_entry_pending id st :
  lookup_entry id st = Pending <-> uuid_to_address_ st !! id = Some None.
Proof.
  unfold lookup_entry. destruct (uuid_to_address_ st !! id) as [[a |] |]; done.
Qed.

Lemma lookup_entry_resolved id st a :
  lookup_entry id st = Resolved a <-> uuid_to_address_ st !! id = Some (Some a).
Proof.
  unfold lookup_entry. destruct (uuid_to_address_ st !! id) as [[a' |] |];
    split; intros H; try discriminate; congruence.
Qed.

(** C4. Two discovery events for the same uuid that pass the filters,
    handled one after the other while its entry is absent and before any
    connection completes, start exactly one handshake: the first finds the
    entry absent, leaves it pending at the end of its own turn and asks
    the radio to connect; the second finds it pending and is dropped
    without a call to the radio.  Neither reaches the callback. *)
Theorem one_handshake_for_two_discoveries p1 p2 now1 now2 st :
  passes_filters p1 = true ->
  passes_filters p2 = true ->
  uuid p2 = uuid p1 ->
  lookup_entry (uuid p1) st = Absent ->
  let st1 := discover_listener p1 now1 st in
  let st2 := discover_listener p2 now2 st1 in
  (onDiscover_ p1 now1 st).1
    = Reject (Some "Discovered => Address fetch started. Ignoring.")
  /\ lookup_entry (uuid p1) st1 = Pending
  /\ radio st1 = radio st ++ [Connect (uuid p1)]
  /\ connecting st1 = connecting st ++ [uuid p1]
  /\ (onDiscover_ p2 now2 st1).1
     = Reject (Some "Discovered => Address fetch on flight. Ignoring.")
  /\ st2 = st1
  /\ radio st2 = radio st ++ [Connect (uuid p1)]
  /\ delivered st2 = delivered st.
Proof.
  intros Hp1 Hp2 Huuid Habsent st1 st2.
  apply passes_filters_spec in Hp1 as (b1 & Hn1 & Hd1 & Hl1 & Hc1).
  apply passes_filters_spec in Hp2 as (b2 & Hn2 & Hd2 & Hl2 & Hc2).
  apply lookup_entry_absent in Habsent.
  assert (H1 : onDiscover_ p1 now1 st
               = (Reject (Some "Discovered => Address fetch started. Ignoring."),
                  connect_ p1 (set_uuid_to_address_
                                 (<[uuid p1 := None]> (uuid_to_address_ st)) st))).
  { rewrite (onDiscover_passed p1 now1 st b1 Hn1 Hd1 Hl1 Hc1), Habsent. reflexivity. }
  assert (Hst1 : st1 = connect_ p1 (set_uuid_to_address_
                                      (<[uuid p1 := None]> (uuid_to_address_ st)) st)).
  { unfold st1, discover_listener. rewrite H1. reflexivity. }
  assert (Hpending : uuid_to_address_ st1 !! uuid p2 = Some None).
  { rewrite Hst1, Huuid. cbn. apply lookup_insert_eq. }
  assert (H2 : onDiscover_ p2 now2 st1
               = (Reject (Some "Discovered => Address fetch on flight. Ignoring."), st1)).
  { rewrite (onDiscover_passed p2 now2 st1 b2 Hn2 Hd2 Hl2 Hc2), Hpending. reflexivity. }
  assert (Hst2 : st2 = st1).
  { unfold st2, discover_listener. rewrite H2. reflexivity. }
  rewrite H1, H2, Hst2. cbn [fst].
  split; [reflexivity |].
  split; [apply lookup_entry_pending; rewrite <- Huuid; exact Hpending |].
  rewrite Hst1. done.
Qed.

(** The sample sensor seen twice by an instance that does not know it. *)
Lemma one_handshake_for_two_discoveries_witness :
  radio (discover_listener (Samples.sensor Samples.cold_frame) 2
           (discover_listener (Samples.sensor Samples.frame) 1 Samples.fresh))
  = [Connect "a1"].
Proof.
  refine (proj1 (proj2 (proj2 (proj2 (proj2 (proj2 (proj2
            (one_handshake_for_two_discoveries
               (Samples.sensor Samples.frame) (Samples.sensor Samples.cold_frame)
               1 2 Samples.fresh _ _ _ _)))))))).
  - vm_compute. reflexivity.
  - vm_compute. reflexivity.
  - reflexivity.
  - reflexivity.
Defined.

(** *** connect_ and its callback *)

(** The loop over the cache collects the entries that hold an address. *)
Lemma foldl_collect (l : list (string * option string)) :
  forall acc,
  NoDup l.*1 ->
  (forall k, k ∈ l.*1 -> k ∉ acc.*1) ->
  foldl collect acc l
  = acc ++ JSON.of_strings
             (omap (fun entry => (fun a => (entry.1, a)) <$> entry.2) l).
Proof.
  induction l as [| [k v] l IH]; intros acc Hnd Hfresh.
  - cbn. by rewrite app_nil_r.
  - rewrite fmap_cons, NoDup_cons in Hnd. destruct Hnd as [Hk Hnd].
    cbn [foldl]. destruct v as [a |].
    + unfold collect at 2. cbn [fst snd].
      rewrite set_property_fresh
        by (apply Hfresh; rewrite fmap_cons; left).
      rewrite IH; [| exact Hnd |].
      * cbn. rewrite <- app_assoc. reflexivity.
      * intros k' Hk'. rewrite fmap_app, elem_of_app. intros [Hin | Hin].
        -- apply (Hfresh k'); [rewrite fmap_cons; right; exact Hk' | exact Hin].
        -- cbn in Hin. apply list_elem_of_singleton in Hin. subst k'. done.
    + unfold collect at 2. cbn [fst snd].
      rewrite IH; [reflexivity | exact Hnd |].
      intros k' Hk'. apply Hfresh. rewrite fmap_cons. right. exact Hk'.
Qed.

Lemma resolved_entries_pairs (cache : gmap string (option string)) :
  resolved_entries cache = JSON.of_strings (resolved_pairs cache).
Proof.
  unfold resolved_entries, resolved_pairs.
  rewrite foldl_collect; [reflexivity | apply NoDup_fst_map_to_list |].
  intros k _. apply not_elem_of_nil.
Qed.

Lemma elem_of_resolved_pairs (cache : gmap string (option string)) id a :
  (id, a) ∈ resolved_pairs cache <-> cache !! id = Some (Some a).
Proof.
  unfold resolved_pairs. rewrite list_elem_of_omap. split.
  - intros ([k v] & Hin & Hf). apply elem_of_map_to_list in Hin.
    destruct v as [a' |]; cbn in Hf; [| discriminate].
    injection Hf as -> ->. exact Hin.
  - intros Hin. exists (id, Some a). split; [| reflexivity].
    apply elem_of_map_to_list, Hin.
Qed.

Lemma NoDup_resolved_pairs (cache : gmap string (option string)) :
  NoDup (resolved_pairs cache).*1.
Proof.
  unfold resolved_pairs.
  pose proof (NoDup_fst_map_to_list cache) as Hnd.
  induction (map_to_list cache) as [| [k v] l IH]; [constructor |].
  rewrite fmap_cons, NoDup_cons in Hnd. destruct Hnd as [Hk Hnd].
  destruct v as [a |]; cbn; [| apply IH, Hnd].
  apply NoDup_cons. split; [| apply IH, Hnd].
  intros Hin. apply Hk. apply list_elem_of_fmap in Hin as ([k' a'] & -> & Hin).
  apply list_elem_of_omap in Hin as ([k'' v'] & Hin & Hf).
  destruct v' as [a'' |]; cbn in Hf; [| discriminate].
  injection Hf as <- <-. apply list_elem_of_fmap. exists (k'', Some a''). done.
Qed.

(** C6. When a resolution succeeds (the connection completes without an
    error for a peripheral with a uuid whose entry is pending), the entry
    becomes resolved with the address of the peripheral, and the file is
    rewritten with the entries that hold an address: a key is saved with
    an address exactly when its entry is resolved with that address, so
    no pending and no absent entry is saved; [load] reads that very
    mapping back. *)
Theorem resolution_persists_resolved_entries p st :
  nonempty (uuid p) = true ->
  lookup_entry (uuid p) st = Pending ->
  let st' := (connect_callback p None st).2 in
  (connect_callback p None st).1 = Resolve p
  /\ lookup_entry (uuid p) st' = Resolved (address p)
  /\ exists saved : list (string * string),
       Config.readFileSync (disk st')
       = Some (JSON.stringify (JSON.Object (JSON.of_strings saved)))
       /\ Config.load (disk st') = (JSON.Object (JSON.of_strings saved), disk st')
       /\ NoDup saved.*1
       /\ forall id a, (id, a) ∈ saved <-> lookup_entry id st' = Resolved a.
Proof.
  intros Huuid _ st'. unfold st', connect_callback.
  rewrite bool_decide_eq_false_2 by (intros [? ?]; discriminate).
  rewrite Huuid. cbn [negb orb fst snd].
  split; [reflexivity |].
  split.
  { apply lookup_entry_resolved. cbn. apply lookup_insert_eq. }
  cbn [uuid_to_address_ set_uuid_to_address_ call_radio disk set_disk].
  rewrite resolved_entries_pairs.
  exists (resolved_pairs (<[uuid p := Some (address p)]> (uuid_to_address_ st))).
  rewrite save_writes. split; [reflexivity |].
  split.
  { rewrite <- (save_writes _ Config.NoDir).
    apply load_after_save, parse_stringify_of_strings, NoDup_resolved_pairs. }
  split; [apply NoDup_resolved_pairs |].
  intros id a. rewrite elem_of_resolved_pairs, lookup_entry_resolved. reflexivity.
Qed.

(** The sample sensor, discovered by an instance that does not know it
    and then connected. *)
Lemma resolution_persists_resolved_entries_witness :
  lookup_entry "a1"
    (connect_callback (Samples.sensor Samples.frame) None
       (discover_listener (Samples.sensor Samples.frame) 1 Samples.fresh)).2
  = Resolved "AA:BB:CC:DD:EE:FF".
Proof.
  refine (proj1 (proj2
            (resolution_persists_resolved_entries (Samples.sensor Samples.frame)
               (discover_listener (Samples.sensor Samples.frame) 1 Samples.fresh)
               _ _))).
  - reflexivity.
  - vm_compute. reflexivity.
Defined.

(** C5 (not met by the code). When the radio reports an error
    to the callback of [connect], the callback returns at once: the state
    is left as it was, so the entry stays pending instead of being
    removed.  On the sample sensor, a discovery, a failed connection and a
    second discovery leave the entry pending with a single call to the
    radio: the second discovery is dropped as if the first handshake were
    still in flight, and no retry starts.  Nothing reaches the callback of
    the subscriber. *)
Theorem connect_error_leaves_entry_pending :
  (forall p e st,
      connect_callback p (Some e) st = (Reject (Some "connect result:"), st))
  /\ exists st,
       run [Discovered (Samples.sensor Samples.frame) 1;
            Connected (Samples.sensor Samples.frame) (Some (JS.Error "timeout"));
            Discovered (Samples.sensor Samples.frame) 2] Samples.fresh = Some st
       /\ lookup_entry "a1" st = Pending
       /\ radio st = [Connect "a1"]
       /\ connecting st = []
       /\ delivered st = [].
Proof.
  split; [reflexivity |].
  eexists. split; [vm_compute; reflexivity |].
  split; [vm_compute; reflexivity |]. done.
Qed.

(** *** The states that the event loop reaches *)

Lemma elem_of_remove_first id x l : x ∈ remove_first id l -> x ∈ l.
Proof.
  induction l as [| y l IH]; [done |]. cbn [remove_first].
  destruct (String.eqb id y); rewrite ?elem_of_cons; [auto |].
  intros [-> | Hin]; auto.
Qed.

Lemma NoDup_remove_first id l :
  NoDup l -> NoDup (remove_first id l) /\ id ∉ remove_first id l.
Proof.
  induction l as [| y l IH]; [split; [constructor | apply not_elem_of_nil] |].
  rewrite NoDup_cons. intros [Hy Hnd]. cbn [remove_first].
  destruct (String.eqb_spec id y) as [-> | Hne]; [done |].
  destruct (IH Hnd) as [IH1 IH2]. split.
  - apply NoDup_cons. split; [| exact IH1].
    intros Hin. apply Hy, (elem_of_remove_first id), Hin.
  - rewrite not_elem_of_cons. done.
Qed.

Lemma connect_callback_state p err st :
  connecting (connect_callback p err st).2 = connecting st
  /\ (uuid_to_address_ (connect_callback p err st).2 = uuid_to_address_ st
      \/ uuid_to_address_ (connect_callback p err st).2
         = delete (uuid p) (uuid_to_address_ st)
      \/ uuid_to_address_ (connect_callback p err st).2
         = <[uuid p := Some (address p)]> (uuid_to_address_ st)).
Proof.
  unfold connect_callback.
  destruct (bool_decide (is_Some err)); [by auto |].
  destruct (false || negb (nonempty (uuid p))); cbn; auto.
Qed.

Lemma awaited_initial cache d : awaited_are_pending (initial cache d).
Proof.
  split; [constructor |]. intros id Hin. by apply elem_of_nil in Hin.
Qed.

(** One turn of the event loop keeps the awaited connections pending and
    changes every entry along an edge of the protocol. *)
Lemma handle_turn e st st' :
  awaited_are_pending st ->
  handle e st = Some st' ->
  awaited_are_pending st'
  /\ forall id, transition (lookup_entry id st) (lookup_entry id st').
Proof.
  intros [Hnd Hpend] Hh. destruct e as [p now | p err]; cbn [handle] in Hh.
  - injection Hh as <-.
    destruct (discover_listener_cache p now st) as (Hc & Hw & _).
    unfold awaited_are_pending, lookup_entry. rewrite Hc, Hw.
    destruct (onDiscover_state p now st) as [-> | [Habs ->]].
    + split; [split; [exact Hnd | exact Hpend] | intros id; constructor].
    + cbn [connect_ set_connecting call_radio set_uuid_to_address_
             uuid_to_address_ connecting].
      assert (Hfresh : uuid p ∉ connecting st).
      { intros Hin. apply Hpend, lookup_entry_pending in Hin. congruence. }
      split; [split |].
      * apply NoDup_app. split; [exact Hnd |]. split; [| apply NoDup_singleton].
        intros x Hx Hx'. apply list_elem_of_singleton in Hx'. congruence.
      * intros id Hin. rewrite lookup_insert.
        destruct (decide (uuid p = id)) as [<- | Hne]; [reflexivity |].
        apply elem_of_app in Hin as [Hin | Hin];
          [| apply list_elem_of_singleton in Hin; congruence].
        exact (Hpend id Hin).
      * intros id. rewrite lookup_insert.
        destruct (decide (uuid p = id)) as [<- | Hne]; [| constructor].
        rewrite Habs. constructor.
  - destruct (bool_decide_reflect (uuid p ∈ connecting st)) as [Hin | Hin];
      [| discriminate].
    injection Hh as <-.
    set (st0 := set_connecting (remove_first (uuid p) (connecting st)) st).
    destruct (connect_callback_state p err st0) as [Hw Hc].
    destruct (NoDup_remove_first (uuid p) _ Hnd) as [Hnd' Hout].
    pose proof (Hpend _ Hin) as Hp. unfold lookup_entry in Hp.
    unfold awaited_are_pending, lookup_entry. rewrite Hw. cbn [st0 connecting set_connecting].
    assert (Hother : forall id, id <> uuid p ->
              uuid_to_address_ (connect_callback p err st0).2 !! id
              = uuid_to_address_ st !! id).
    { intros id Hne. destruct Hc as [-> | [-> | ->]]; cbn.
      - reflexivity.
      - by rewrite lookup_delete_ne.
      - by rewrite lookup_insert_ne. }
    split; [split; [exact Hnd' |] |].
    + intros id Hid. rewrite Hother by (intros ->; done).
      apply (Hpend id), (elem_of_remove_first (uuid p)), Hid.
    + intros id. destruct (decide (id = uuid p)) as [-> | Hne];
        [| rewrite Hother by exact Hne; constructor].
      destruct (uuid_to_address_ st !! uuid p) as [[a |] |] eqn:Hst;
        try discriminate.
      destruct Hc as [-> | [-> | ->]]; cbn.
      * rewrite Hst. constructor.
      * rewrite lookup_delete_eq. constructor.
      * rewrite lookup_insert_eq. constructor.
Qed.

Lemma run_keeps_awaited events :
  forall st st',
  awaited_are_pending st -> run events st = Some st' -> awaited_are_pending st'.
Proof.
  induction events as [| e events IH]; intros st st' Hinv Hrun; cbn [run] in Hrun.
  - by injection Hrun as <-.
  - destruct (handle e st) as [st1 |] eqn:Hh; [| discriminate].
    apply (IH st1 st'); [| exact Hrun]. by apply (handle_turn e st st1).
Qed.

(** C7. Along every run of the event loop, whatever the order of the
    discoveries, of the connections that complete and of those that fail,
    each turn changes each cache entry along the protocol: it stays as it
    is, goes from absent to pending, from pending to resolved, or from
    pending back to absent.  A resolved entry keeps its address for ever,
    and an absent entry is never resolved in one turn. *)
Theorem cache_entries_follow_protocol cache d events st e st' id :
  run events (initial cache d) = Some st ->
  handle e st = Some st' ->
  transition (lookup_entry id st) (lookup_entry id st')
  /\ (forall a, lookup_entry id st = Resolved a -> lookup_entry id st' = Resolved a)
  /\ (lookup_entry id st = Absent -> forall a, lookup_entry id st' <> Resolved a).
Proof.
  intros Hrun Hh.
  pose proof (run_keeps_awaited events _ _ (awaited_initial cache d) Hrun) as Hinv.
  destruct (handle_turn e st st' Hinv Hh) as [_ Ht]. specialize (Ht id).
  split; [exact Ht |]. split.
  - intros a Ha. rewrite Ha in Ht. inversion Ht. congruence.
  - intros Ha a Ha'. rewrite Ha, Ha' in Ht. inversion Ht.
Qed.

(** The sample sensor: discovered, then connected; its entry goes from
    pending to resolved in the second turn. *)
Lemma cache_entries_follow_protocol_witness :
  transition
    (lookup_entry "a1"
       (discover_listener (Samples.sensor Samples.frame) 1 Samples.fresh))
    (lookup_entry "a1"
       (connect_callback (Samples.sensor Samples.frame) None
          (set_connecting []
             (discover_listener (Samples.sensor Samples.frame) 1 Samples.fresh))).2).
Proof.
  refine (proj1 (cache_entries_follow_protocol ∅ Config.NoDir
            [Discovered (Samples.sensor Samples.frame) 1]
            _ (Connected (Samples.sensor Samples.frame) None) _ "a1" _ _)).
  - reflexivity.
  - reflexivity.
Defined.

End Cache.

(** * Further properties of the code *)

(** ** getCrc16: what the checksum detects *)

Section ChecksumStrength.
Import IBS_TH1.

Lemma round_word16 acc : word16 acc -> word16 (Checksum.round acc).
Proof.
  intros Hw. destruct (crc16_round_spec acc Hw) as [<- Hw']. exact Hw'.
Qed.

Lemma iter_round_word16 n acc : word16 acc -> word16 (Nat.iter n Checksum.round acc).
Proof.
  intros Hw. induction n as [| n IH]; [exact Hw |].
  apply (round_word16 _ IH).
Qed.

Lemma land_below_pow2 y n : 0 <= n -> 0 <= y < 2 ^ n -> Z.land y (2 ^ n) = 0.
Proof.
  intros Hn Hy. apply Z.bits_inj'. intros m Hm.
  rewrite Z.land_spec, Z.bits_0, Z.pow2_bits_eqb by lia.
  destruct (Z.eqb_spec n m) as [<- | Hne]; [| apply andb_false_r].
  rewrite <- (Z.mod_small y (2 ^ n)) by lia.
  rewrite Z.mod_pow2_bits_high by lia. reflexivity.
Qed.

(** XORing 0xA001 into a 15-bit value sets bit 15. *)
Lemma lxor_A001_high q : 0 <= q < 2 ^ 15 -> 2 ^ 15 <= Z.lxor q 0xA001 < 2 ^ 16.
Proof.
  intros Hq.
  assert (Hy : 0 <= Z.lxor q 0x2001 < 2 ^ 15) by (apply lxor_below; lia).
  change 0xA001 with (Z.lxor 0x2001 (2 ^ 15)).
  rewrite <- Z.lxor_assoc.
  rewrite <- Z.add_nocarry_lxor by (apply land_below_pow2; lia).
  change (2 ^ 16) with (2 ^ 15 + 2 ^ 15). lia.
Qed.

(** A round can be undone: it is one-to-one on 16-bit words. *)
Lemma unround_round acc : word16 acc -> Checksum.unround (Checksum.round acc) = acc.
Proof.
  unfold word16. intros Hw. unfold Checksum.round, Checksum.unround.
  assert (Hq : 0 <= Z.shiftr acc 1 < 2 ^ 15).
  { rewrite Z.shiftr_div_pow2 by lia. change (2 ^ 1) with 2.
    split; [apply Z.div_pos; lia | apply Z.div_lt_upper_bound; lia]. }
  assert (Hdiv : acc = 2 * Z.shiftr acc 1 + Z.b2z (Z.testbit acc 0)).
  { rewrite Z.shiftr_div_pow2, Z.bit0_mod by lia. change (2 ^ 1) with 2.
    apply Z.div_mod. lia. }
  destruct (Z.testbit acc 0); cbn [Z.b2z] in Hdiv.
  - pose proof (lxor_A001_high _ Hq) as Hh.
    destruct (Z.leb_spec 0x8000 (Z.lxor (Z.shiftr acc 1) 0xA001)) as [_ | Hlt];
      [| change (2 ^ 15) with 32768 in Hh; lia].
    rewrite Z.lxor_assoc, Z.lxor_nilpotent, Z.lxor_0_r. lia.
  - destruct (Z.leb_spec 0x8000 (Z.shiftr acc 1)) as [Hge | _];
      [change (2 ^ 15) with 32768 in Hq; lia | lia].
Qed.

Lemma iter_round_inj n a a' :
  word16 a -> word16 a' ->
  Nat.iter n Checksum.round a = Nat.iter n Checksum.round a' -> a = a'.
Proof.
  intros Ha Ha'. induction n as [| n IH]; [done |].
  intros Heq. apply IH.
  rewrite <- (unround_round _ (iter_round_word16 n a Ha)).
  rewrite <- (unround_round _ (iter_round_word16 n a' Ha')).
  f_equal. exact Heq.
Qed.

Lemma byte_value_inj b b' : JS.byte_value b = JS.byte_value b' -> b = b'.
Proof.
  unfold JS.byte_value. intros Heq. apply N2Z.inj in Heq.
  pose proof (Byte.of_to_N b) as Hb. rewrite Heq, Byte.of_to_N in Hb. congruence.
Qed.

(** One step of the checksum, as a function of the accumulator and of the
    byte, loses nothing of their XOR. *)
Lemma crc16_byte_lxor crc16 crc16' b b' :
  word16 crc16 -> word16 crc16' ->
  crc16_byte crc16 b = crc16_byte crc16' b' ->
  Z.lxor crc16 (JS.byte_value b) = Z.lxor crc16' (JS.byte_value b').
Proof.
  intros Hw Hw' Heq. pose proof (byte_value_range b) as Hb.
  pose proof (byte_value_range b') as Hb'. unfold word16 in *.
  destruct (crc16_byte_spec crc16 b Hw) as [E _].
  destruct (crc16_byte_spec crc16' b' Hw') as [E' _].
  rewrite E, E' in Heq. unfold Checksum.absorb in Heq.
  rewrite <- !lxor_low_byte in Heq by lia.
  apply iter_round_inj in Heq; [exact Heq | |]; apply lxor_below; lia.
Qed.

Lemma fold_left_cons {A B : Type} (f : A -> B -> A) (b : B) (l : list B) (a : A) :
  fold_left f (b :: l) a = fold_left f l (f a b).
Proof. reflexivity. Qed.

Lemma fold_crc16_inj post : forall crc16 crc16',
  word16 crc16 -> word16 crc16' ->
  fold_left crc16_byte post crc16 = fold_left crc16_byte post crc16' ->
  crc16 = crc16'.
Proof.
  induction post as [| b post IH]; intros c c' Hw Hw' Heq; [exact Heq |].
  rewrite !fold_left_cons in Heq.
  apply IH in Heq;
    [| apply (crc16_byte_spec c b Hw) | apply (crc16_byte_spec c' b Hw')].
  apply crc16_byte_lxor in Heq; [| done..].
  rewrite <- (Z.lxor_0_r c), <- (Z.lxor_nilpotent (JS.byte_value b)).
  rewrite <- Z.lxor_assoc, Heq, Z.lxor_assoc, Z.lxor_nilpotent. apply Z.lxor_0_r.
Qed.

Lemma getCrc16_app pre post :
  getCrc16 (pre ++ post) = fold_left crc16_byte post (getCrc16 pre).
Proof. unfold getCrc16. apply fold_left_app. Qed.

Lemma getCrc16_word16 buffer : word16 (getCrc16 buffer).
Proof. unfold getCrc16. apply fold_crc16_spec. unfold word16. lia. Qed.

Lemma getCrc16_one_byte (pre post : list byte) (b b' : byte) :
  b <> b' -> getCrc16 (pre ++ b :: post) <> getCrc16 (pre ++ b' :: post).
Proof.
  intros Hne Heq. rewrite !getCrc16_app, !fold_left_cons in Heq.
  pose proof (getCrc16_word16 pre) as Hw.
  apply fold_crc16_inj in Heq;
    [| apply (crc16_byte_spec _ b Hw) | apply (crc16_byte_spec _ b' Hw)].
  apply crc16_byte_lxor in Heq; [| done..].
  apply Hne, byte_value_inj.
  rewrite <- (Z.lxor_0_l (JS.byte_value b)), <- (Z.lxor_nilpotent (getCrc16 pre)).
  rewrite Z.lxor_assoc, Heq, <- Z.lxor_assoc, Z.lxor_nilpotent. apply Z.lxor_0_l.
Qed.

(** X1. [getCrc16] tells apart any two byte sequences that differ in
    exactly one byte, wherever that byte stands and whatever surrounds
    it: the two checksums are equal only if the two bytes are. *)
Theorem getCrc16_detects_one_byte (pre post : list byte) (b b' : byte) :
  (b <> b' -> getCrc16 (pre ++ b :: post) <> getCrc16 (pre ++ b' :: post))
  /\ (getCrc16 (pre ++ b :: post) = getCrc16 (pre ++ b' :: post) <-> b = b').
Proof.
  split; [apply getCrc16_one_byte |]. split; [| by intros ->].
  intros Heq. destruct (Byte.byte_eq_dec b b') as [E | Hne]; [exact E |].
  by destruct (getCrc16_one_byte pre post b b' Hne).
Qed.

Lemma getCrc16_detects_one_byte_witness :
  getCrc16 [x66; x08; x9c] <> getCrc16 [x66; x09; x9c].
Proof.
  apply (proj1 (getCrc16_detects_one_byte [x66] [x9c] x08 x09)). discriminate.
Defined.

Lemma round_double h : 0 <= h -> Checksum.round (2 * h) = h.
Proof.
  intros Hh. unfold Checksum.round. rewrite Z.testbit_even_0.
  rewrite Z.shiftr_div_pow2 by lia. change (2 ^ 1) with 2.
  rewrite Z.mul_comm. apply Z.div_mul. lia.
Qed.

(** Rounds on a value whose low bits are clear only shift it. *)
Lemma iter_round_shift k : forall h,
  0 <= h -> Nat.iter k Checksum.round (h * 2 ^ Z.of_nat k) = h.
Proof.
  induction k as [| k IH]; intros h Hh.
  - cbn. lia.
  - change (Nat.iter (S k) Checksum.round (h * 2 ^ Z.of_nat (S k)))
      with (Checksum.round (Nat.iter k Checksum.round (h * 2 ^ Z.of_nat (S k)))).
    rewrite Nat2Z.inj_succ, Z.pow_succ_r by lia.
    replace (h * (2 * 2 ^ Z.of_nat k)) with ((2 * h) * 2 ^ Z.of_nat k) by lia.
    rewrite IH by lia. apply round_double, Hh.
Qed.

(** X2. The checksum of a byte sequence followed by its own checksum, low
    byte first, is zero: the seven bytes 0-6 of a frame that passes the
    checksum filter have checksum 0. *)
Theorem getCrc16_residue_zero (buffer : list byte) (lo hi : byte) :
  JS.byte_value hi * 256 + JS.byte_value lo = getCrc16 buffer ->
  getCrc16 (buffer ++ [lo; hi]) = 0.
Proof.
  intros Hsum. pose proof (byte_value_range lo) as Hlo.
  pose proof (byte_value_range hi) as Hhi.
  pose proof (getCrc16_word16 buffer) as Hw.
  rewrite getCrc16_app, !fold_left_cons.
  change (fold_left crc16_byte [] ?x) with x.
  destruct (crc16_byte_spec (getCrc16 buffer) lo Hw) as [-> _].
  assert (Hfirst : Checksum.absorb (getCrc16 buffer) lo = JS.byte_value hi).
  { unfold Checksum.absorb, Checksum.xor_into_low_byte. rewrite <- Hsum.
    assert (Hdiv : (JS.byte_value hi * 256 + JS.byte_value lo) / 256
                   = JS.byte_value hi)
      by (symmetry; apply (Z.div_unique _ _ _ (JS.byte_value lo)); lia).
    assert (Hmod : (JS.byte_value hi * 256 + JS.byte_value lo) mod 256
                   = JS.byte_value lo)
      by (symmetry; apply (Z.mod_unique _ _ (JS.byte_value hi)); lia).
    rewrite Hdiv, Hmod, Z.lxor_nilpotent, Z.add_0_r.
    apply (iter_round_shift 8). lia. }
  rewrite Hfirst.
  destruct (crc16_byte_spec (JS.byte_value hi) hi) as [-> _];
    [unfold word16; lia |].
  unfold Checksum.absorb, Checksum.xor_into_low_byte.
  rewrite Z.div_small, Z.mod_small, Z.lxor_nilpotent by lia. reflexivity.
Qed.

(** The first seven bytes of the frame of the specification. *)
Lemma getCrc16_residue_zero_witness :
  getCrc16 ([x66; x08; x9c; x15; x00] ++ [xe0; xd6]) = 0.
Proof.
  apply (getCrc16_residue_zero [x66; x08; x9c; x15; x00] xe0 xd6).
  vm_compute. reflexivity.
Defined.

End ChecksumStrength.

(** ** onDiscover_: which bytes of a frame the checksum protects *)

Section FrameIntegrity.
Import IBS_TH1.

Lemma onDiscover_crc_error p now st buffer :
  localName (advert p) = Some DEVICE_NAME ->
  manufacturerData (advert p) = Some buffer ->
  length buffer = 9%nat ->
  ~ checksum_matches buffer ->
  onDiscover_ p now st = (Reject (Some "Discovered => CRC error"), st).
Proof.
  intros Hname Hdata Hlen Hcrc. unfold onDiscover_.
  apply name_differs_false in Hname. rewrite Hname, Hdata, Hlen.
  cbn [Nat.eqb negb]. unfold checksum_matches in Hcrc.
  destruct (Z.eqb_spec (JS.index buffer 6 * 256 + JS.index buffer 5)
              (getCrc16 (take 5 buffer))) as [E | _]; [done | reflexivity].
Qed.

Lemma index_insert_eq (buffer : list byte) i b :
  (i < length buffer)%nat -> JS.index (<[i := b]> buffer) i = JS.byte_value b.
Proof.
  intros Hi. unfold JS.index. by rewrite list_lookup_insert_eq.
Qed.

Lemma index_insert_ne (buffer : list byte) i j b :
  i <> j -> JS.index (<[i := b]> buffer) j = JS.index buffer j.
Proof.
  intros Hne. unfold JS.index. by rewrite list_lookup_insert_ne.
Qed.

Lemma index_range (buffer : list byte) i : 0 <= JS.index buffer i <= 255.
Proof.
  unfold JS.index. destruct (buffer !! i) as [b |]; [| lia].
  pose proof (byte_value_range b). lia.
Qed.

Lemma checksum_broken_by_one_byte (buffer : list byte) i b :
  length buffer = 9%nat ->
  checksum_matches buffer ->
  (i < 7)%nat ->
  JS.index buffer i <> JS.byte_value b ->
  ~ checksum_matches (<[i := b]> buffer).
Proof.
  unfold checksum_matches. intros Hlen Hcrc Hi Hb Hcrc'.
  destruct (decide (i < 5)%nat) as [Hlt | Hge].
  - rewrite !index_insert_ne, take_insert_lt in Hcrc' by lia.
    rewrite Hcrc in Hcrc'.
    assert (Hx : is_Some (take 5 buffer !! i)).
    { apply lookup_lt_is_Some. rewrite length_take. lia. }
    destruct Hx as [x Hx].
    rewrite insert_take_drop in Hcrc' by (rewrite length_take; lia).
    rewrite <- (take_drop_middle (take 5 buffer) i x Hx) in Hcrc' at 1.
    revert Hcrc'. apply getCrc16_one_byte. intros ->. apply Hb.
    unfold JS.index. rewrite lookup_take_lt in Hx by lia. by rewrite Hx.
  - rewrite take_insert_ge in Hcrc' by lia. rewrite <- Hcrc in Hcrc'.
    pose proof (index_range buffer 5). pose proof (index_range buffer 6).
    pose proof (byte_value_range b).
    destruct (decide (i = 5%nat)) as [-> | Hne].
    + rewrite index_insert_eq, index_insert_ne in Hcrc' by lia. lia.
    + assert (i = 6%nat) as -> by lia.
      rewrite index_insert_eq, index_insert_ne in Hcrc' by lia. lia.
Qed.

(** X3. A frame that differs from a frame with a matching checksum in
    exactly one of the bytes 0 to 6 never gets through: [onDiscover_]
    rejects it with the CRC error and leaves the state alone. *)
Theorem one_corrupted_byte_is_rejected p now st (buffer : list byte) i b :
  length buffer = 9%nat ->
  checksum_matches buffer ->
  (i < 7)%nat ->
  JS.index buffer i <> JS.byte_value b ->
  localName (advert p) = Some DEVICE_NAME ->
  manufacturerData (advert p) = Some (<[i := b]> buffer) ->
  onDiscover_ p now st = (Reject (Some "Discovered => CRC error"), st).
Proof.
  intros Hlen Hcrc Hi Hb Hname Hdata.
  apply (onDiscover_crc_error p now st _ Hname Hdata).
  - by rewrite length_insert.
  - by apply checksum_broken_by_one_byte.
Qed.

(** The frame of the specification with its humidity byte 3 changed. *)
Lemma one_corrupted_byte_is_rejected_witness :
  onDiscover_ (Samples.sensor (<[3%nat := x16]> Samples.frame)) 0 Samples.known
  = (Reject (Some "Discovered => CRC error"), Samples.known).
Proof.
  apply (one_corrupted_byte_is_rejected _ 0 Samples.known Samples.frame 3 x16).
  - reflexivity.
  - unfold checksum_matches. vm_compute. reflexivity.
  - lia.
  - vm_compute. discriminate.
  - reflexivity.
  - reflexivity.
Defined.

(** X4. The battery byte is outside the checksum: putting any byte at
    offset 7 of an accepted frame gives a frame that is accepted too, and
    its reading differs from the original one in the battery only. *)
Theorem battery_byte_is_not_protected p p' now st (buffer : list byte) address b :
  localName (advert p) = Some DEVICE_NAME ->
  manufacturerData (advert p) = Some buffer ->
  length buffer = 9%nat ->
  checksum_matches buffer ->
  uuid_to_address_ st !! uuid p = Some (Some address) ->
  uuid p' = uuid p ->
  localName (advert p') = Some DEVICE_NAME ->
  manufacturerData (advert p') = Some (<[7%nat := b]> buffer) ->
  exists r r',
    onDiscover_ p now st = (Resolve r, st)
    /\ onDiscover_ p' now st = (Resolve r', st)
    /\ RealtimeData.battery r' = JS.byte_value b
    /\ RealtimeData.temperature r' = RealtimeData.temperature r
    /\ RealtimeData.humidity r' = RealtimeData.humidity r
    /\ RealtimeData.probeType r' = RealtimeData.probeType r
    /\ RealtimeData.address r' = RealtimeData.address r
    /\ RealtimeData.uuid r' = RealtimeData.uuid r
    /\ RealtimeData.date r' = RealtimeData.date r.
Proof.
  intros Hname Hdata Hlen Hcrc Hres Huuid Hname' Hdata'.
  assert (Hcrc' : checksum_matches (<[7%nat := b]> buffer)).
  { unfold checksum_matches in *.
    rewrite !index_insert_ne, take_insert_ge by lia. exact Hcrc. }
  rewrite (onDiscover_passed p now st buffer Hname Hdata Hlen Hcrc), Hres.
  rewrite (onDiscover_passed p' now st _ Hname' Hdata'
             ltac:(by rewrite length_insert) Hcrc'), Huuid, Hres.
  eexists _, _. split; [reflexivity |]. split; [reflexivity |].
  cbn [RealtimeData.battery RealtimeData.temperature RealtimeData.humidity
       RealtimeData.probeType RealtimeData.address RealtimeData.uuid
       RealtimeData.date].
  rewrite index_insert_eq by lia. rewrite !index_insert_ne by lia. done.
Qed.

(** The frame of the specification with 255 as its battery byte. *)
Lemma battery_byte_is_not_protected_witness :
  exists r', onDiscover_ (Samples.sensor (<[7%nat := xff]> Samples.frame)) 0 Samples.known
             = (Resolve r', Samples.known)
             /\ RealtimeData.battery r' = 255.
Proof.
  destruct (battery_byte_is_not_protected
              (Samples.sensor Samples.frame)
              (Samples.sensor (<[7%nat := xff]> Samples.frame))
              0 Samples.known Samples.frame "AA:BB:CC:DD:EE:FF" xff)
    as (r & r' & _ & Hr' & Hb & _);
    [reflexivity | reflexivity | reflexivity | unfold checksum_matches; vm_compute; reflexivity
    | vm_compute; reflexivity | reflexivity | reflexivity | reflexivity |].
  exists r'. split; [exact Hr' | exact Hb].
Defined.

End FrameIntegrity.

(** ** onDiscover_: the values of a reading *)

Section ReadingRanges.
Import IBS_TH1.

Lemma all_from_spec count : forall first check,
  Range.all_from count first check = true ->
  forall t, first <= t < first + Z.of_nat count -> check t = true.
Proof.
  induction count as [| count IH]; intros first check Hall t Ht; [lia |].
  cbn [Range.all_from] in Hall. apply andb_true_iff in Hall as [Hfirst Hrest].
  destruct (Z.eq_dec t first) as [-> | Hne]; [exact Hfirst |].
  apply (IH (first + 1) check Hrest). lia.
Qed.

Lemma temperature_within t :
  -32768 <= t <= 32767 ->
  Range.within (-327.68) 327.67 (JS.div t 100) = true.
Proof.
  intros Ht.
  apply (all_from_spec (Z.to_nat 65536) (-32768)
           (fun t => Range.within (-327.68) 327.67 (JS.div t 100)));
    [vm_compute; reflexivity | lia].
Qed.

Lemma humidity_within h :
  0 <= h <= 65535 -> Range.within 0 655.35 (JS.div h 100) = true.
Proof.
  intros Hh.
  apply (all_from_spec (Z.to_nat 65536) 0
           (fun h => Range.within 0 655.35 (JS.div h 100)));
    [vm_compute; reflexivity | lia].
Qed.

(** X5. Every reading that [onDiscover_] resolves with carries the uuid of
    the peripheral, the time of the event and the address that the cache
    holds for that uuid; its temperature is a number between -327.68 and
    327.67, its humidity a number between 0 and 655.35 and its battery an
    integer between 0 and 255: neither the humidity nor the battery is
    limited to 100. *)
Theorem reading_is_well_formed p now st r st' :
  onDiscover_ p now st = (Resolve r, st') ->
  RealtimeData.uuid r = uuid p
  /\ RealtimeData.date r = now
  /\ lookup_entry (uuid p) st = Resolved (RealtimeData.address r)
  /\ Range.within (-327.68) 327.67 (RealtimeData.temperature r) = true
  /\ Range.within 0 655.35 (RealtimeData.humidity r) = true
  /\ 0 <= RealtimeData.battery r <= 255.
Proof.
  intros Hr.
  destruct (onDiscover_resolve_inv p now st r st' Hr)
    as (buffer & address & Hname & Hdata & Hlen & Hcrc & Hres & ->).
  rewrite (onDiscover_passed p now st buffer Hname Hdata Hlen Hcrc), Hres in Hr.
  injection Hr as <-.
  cbn [RealtimeData.uuid RealtimeData.date RealtimeData.address
       RealtimeData.temperature RealtimeData.humidity RealtimeData.battery].
  pose proof (index_range buffer 0). pose proof (index_range buffer 1).
  pose proof (index_range buffer 2). pose proof (index_range buffer 3).
  split; [reflexivity |]. split; [reflexivity |].
  split; [by apply lookup_entry_resolved |].
  split; [| split; [apply humidity_within; lia | apply index_range]].
  destruct (Z.leb_spec 0x8000 (JS.index buffer 1 * 256 + JS.index buffer 0));
    apply temperature_within; lia.
Qed.

Lemma reading_is_well_formed_witness :
  exists r, onDiscover_ (Samples.sensor Samples.cold_frame) 7 Samples.known
            = (Resolve r, Samples.known)
            /\ RealtimeData.date r = 7
            /\ Range.within (-327.68) 327.67 (RealtimeData.temperature r) = true.
Proof.
  eexists. split; [vm_compute; reflexivity |].
  destruct (reading_is_well_formed (Samples.sensor Samples.cold_frame) 7 Samples.known
              _ Samples.known ltac:(vm_compute; reflexivity))
    as (_ & Hd & _ & Ht & _).
  split; [exact Hd | exact Ht].
Defined.

End ReadingRanges.

(** ** The event loop: what holds in every state it reaches *)

Section EventLoop.
Import IBS_TH1.

Lemma run_invariant (P : state -> Prop) :
  (forall e st st', P st -> handle e st = Some st' -> P st') ->
  forall events st st', P st -> run events st = Some st' -> P st'.
Proof.
  intros Hstep. induction events as [| e events IH]; intros st st' HP Hrun;
    cbn [run] in Hrun.
  - by injection Hrun as <-.
  - destruct (handle e st) as [st1 |] eqn:Hh; [| discriminate].
    apply (IH st1 st'); [| exact Hrun]. by apply (Hstep e st st1).
Qed.

Lemma onDiscover_resolve_entry p now st r st' :
  onDiscover_ p now st = (Resolve r, st') ->
  st' = st
  /\ RealtimeData.uuid r = uuid p
  /\ lookup_entry (uuid p) st = Resolved (RealtimeData.address r).
Proof.
  intros Hr.
  destruct (onDiscover_resolve_inv p now st r st' Hr)
    as (buffer & address & Hname & Hdata & Hlen & Hcrc & Hres & ->).
  rewrite (onDiscover_passed p now st buffer Hname Hdata Hlen Hcrc), Hres in Hr.
  injection Hr as <-. split; [reflexivity |]. split; [reflexivity |].
  by apply lookup_entry_resolved.
Qed.

(** What a discovery does to the calls to the radio and to the readings
    handed over. *)
Lemma discover_listener_effects p now st :
  disk (discover_listener p now st) = disk st
  /\ (radio (discover_listener p now st) = radio st
      \/ (lookup_entry (uuid p) st = Absent
          /\ radio (discover_listener p now st) = radio st ++ [Connect (uuid p)]))
  /\ (delivered (discover_listener p now st) = delivered st
      \/ exists r, delivered (discover_listener p now st) = delivered st ++ [r]
           /\ RealtimeData.uuid r = uuid p
           /\ lookup_entry (uuid p) st = Resolved (RealtimeData.address r)).
Proof.
  unfold discover_listener.
  destruct (onDiscover_ p now st) as [[r | reason] st'] eqn:Hd.
  - destruct (onDiscover_resolve_entry p now st r st' Hd) as (-> & Hu & He).
    cbn. split; [reflexivity |]. split; [by left |]. right. eauto.
  - pose proof (onDiscover_state p now st) as Hs. rewrite Hd in Hs. cbn [snd] in Hs.
    destruct Hs as [-> | [Habs ->]]; [by auto |].
    cbn. split; [reflexivity |]. split; [| by left].
    right. split; [by apply lookup_entry_absent | reflexivity].
Qed.

Lemma connect_callback_effects p err st :
  delivered (connect_callback p err st).2 = delivered st
  /\ (radio (connect_callback p err st).2 = radio st
      \/ radio (connect_callback p err st).2 = radio st ++ [Disconnect (uuid p)]).
Proof.
  unfold connect_callback.
  destruct (bool_decide (is_Some err)); [by auto |].
  destruct (false || negb (nonempty (uuid p))); cbn; auto.
Qed.

Lemma transition_from_resolved a e : transition (Resolved a) e -> e = Resolved a.
Proof. by inversion 1. Qed.

(** X6. In every state that the event loop reaches from a freshly
    constructed instance, each reading that was handed to the subscriber
    carries the address that the cache still holds for its uuid: the
    callback only ever receives readings of resolved peripherals, and a
    resolved address is never revised. *)
Theorem delivered_readings_are_resolved cache d events st r :
  run events (initial cache d) = Some st ->
  r ∈ delivered st ->
  lookup_entry (RealtimeData.uuid r) st = Resolved (RealtimeData.address r).
Proof.
  intros Hrun.
  pose (P := fun st : state =>
               awaited_are_pending st
               /\ forall r, r ∈ delivered st ->
                    lookup_entry (RealtimeData.uuid r) st
                    = Resolved (RealtimeData.address r)).
  cut (P st); [intros [_ H]; apply H |].
  apply (run_invariant P) with (events := events) (st := initial cache d);
    [| | exact Hrun].
  - clear. intros e st st' [Hinv Hdel] Hh.
    destruct (handle_turn e st st' Hinv Hh) as [Hinv' Ht].
    split; [exact Hinv' |]. intros r Hr.
    assert (Hold : r ∈ delivered st ->
              lookup_entry (RealtimeData.uuid r) st' = Resolved (RealtimeData.address r)).
    { intros Hin. apply transition_from_resolved. rewrite <- (Hdel r Hin). apply Ht. }
    destruct e as [p now | p err]; cbn [handle] in Hh.
    + injection Hh as <-.
      destruct (discover_listener_effects p now st) as (_ & _ & [Hd | (r' & Hd & Hu & He)]);
        rewrite Hd in Hr; [by apply Hold |].
      apply elem_of_app in Hr as [Hr | Hr]; [by apply Hold |].
      apply list_elem_of_singleton in Hr as ->.
      apply transition_from_resolved. rewrite Hu, <- He. apply Ht.
    + destruct (bool_decide (uuid p ∈ connecting st)); [| discriminate].
      injection Hh as <-. apply Hold.
      by rewrite (proj1 (connect_callback_effects p err _)) in Hr.
  - split; [apply awaited_initial |]. intros r' Hr'. by apply elem_of_nil in Hr'.
Qed.

Lemma delivered_readings_are_resolved_witness :
  lookup_entry "a1" (discover_listener (Samples.sensor Samples.frame) 5 Samples.known)
  = Resolved "AA:BB:CC:DD:EE:FF".
Proof.
  apply (delivered_readings_are_resolved {[ "a1" := Some "AA:BB:CC:DD:EE:FF" ]}
           (Config.Dir None) [Discovered (Samples.sensor Samples.frame) 5] _
           {| RealtimeData.address := "AA:BB:CC:DD:EE:FF"; RealtimeData.uuid := "a1";
              RealtimeData.date := 5; RealtimeData.probeType := 1;
              RealtimeData.temperature := 21.5; RealtimeData.humidity := 55.32;
              RealtimeData.battery := 87 |}).
  - reflexivity.
  - vm_compute. left.
Defined.

(** X7. In every state that the event loop reaches, at most one
    connection is awaited for a uuid, and a connection is awaited only
    for an entry that is pending: two handshakes are never in flight for
    the same peripheral, whatever the order of the events. *)
Theorem one_handshake_in_flight cache d events st :
  run events (initial cache d) = Some st ->
  NoDup (connecting st)
  /\ forall id, id ∈ connecting st -> lookup_entry id st = Pending.
Proof.
  intros Hrun. apply (run_keeps_awaited events _ st (awaited_initial cache d) Hrun).
Qed.

Lemma one_handshake_in_flight_witness :
  NoDup (connecting
           (discover_listener (Samples.sensor Samples.cold_frame) 2
              (discover_listener (Samples.sensor Samples.frame) 1 Samples.fresh))).
Proof.
  refine (proj1 (one_handshake_in_flight ∅ Config.NoDir
            [Discovered (Samples.sensor Samples.frame) 1;
             Discovered (Samples.sensor Samples.cold_frame) 2] _ _)).
  reflexivity.
Defined.

(** X8. An entry that is pending while no connection is awaited for it
    (the state that a failed connection leaves) stays so for ever: no
    event changes it, the radio is never asked again to connect to that
    uuid, and no reading of that uuid reaches the subscriber. *)
Theorem unawaited_pending_entry_is_stuck id events st st' :
  lookup_entry id st = Pending ->
  id ∉ connecting st ->
  run events st = Some st' ->
  lookup_entry id st' = Pending
  /\ (id ∉ connecting st')
  /\ (exists calls, radio st' = radio st ++ calls /\ (Connect id) ∉ calls)
  /\ (exists readings, delivered st' = delivered st ++ readings
        /\ forall r, r ∈ readings -> RealtimeData.uuid r <> id).
Proof.
  intros Hp Hw Hrun.
  pose (P := fun s : state =>
               lookup_entry id s = Pending
               /\ (id ∉ connecting s)
               /\ (exists calls, radio s = radio st ++ calls /\ (Connect id) ∉ calls)
               /\ (exists readings, delivered s = delivered st ++ readings
                     /\ forall r, r ∈ readings -> RealtimeData.uuid r <> id)).
  apply (run_invariant P) with (events := events) (st := st); [| | exact Hrun].
  - clear. intros e s s' (Hp & Hw & (calls & Hc & Hnc) & (readings & Hd & Hnr)) Hh.
    destruct e as [p now | p err]; cbn [handle] in Hh.
    + injection Hh as <-.
      destruct (discover_listener_cache p now s) as (Ec & Ew & _).
      destruct (discover_listener_effects p now s) as (_ & Hradio & Hdel).
      assert (Hsame : uuid p = id -> (onDiscover_ p now s).2 = s).
      { intros <-. destruct (onDiscover_state p now s) as [E | [Habs _]]; [exact E |].
        apply lookup_entry_pending in Hp. congruence. }
      split; [| split; [| split]].
      * unfold lookup_entry. rewrite Ec.
        destruct (onDiscover_state p now s) as [-> | [Habs ->]]; [exact Hp |].
        cbn. rewrite lookup_insert_ne; [exact Hp |].
        intros <-. apply lookup_entry_pending in Hp. congruence.
      * rewrite Ew.
        destruct (onDiscover_state p now s) as [-> | [Habs ->]]; [exact Hw |].
        cbn. rewrite elem_of_app, list_elem_of_singleton. intros [Hin | ->]; [done |].
        apply lookup_entry_pending in Hp. congruence.
      * destruct Hradio as [-> | [Habs ->]]; [eauto |].
        exists (calls ++ [Connect (uuid p)]). rewrite Hc, app_assoc.
        split; [reflexivity |]. rewrite elem_of_app, list_elem_of_singleton.
        intros [Hin | [= ->]]; [done | congruence].
      * destruct Hdel as [-> | (r & -> & Hu & He)]; [eauto |].
        exists (readings ++ [r]). rewrite Hd, app_assoc. split; [reflexivity |].
        intros r' Hr'. apply elem_of_app in Hr' as [Hr' | Hr']; [by apply Hnr |].
        apply list_elem_of_singleton in Hr' as ->. rewrite Hu. intros <-. congruence.
    + destruct (bool_decide_reflect (uuid p ∈ connecting s)) as [Hin | Hin];
        [| discriminate].
      injection Hh as <-.
      assert (Hne : uuid p <> id) by (intros <-; done).
      set (s0 := set_connecting (remove_first (uuid p) (connecting s)) s).
      destruct (connect_callback_state p err s0) as [Ew Ec].
      destruct (connect_callback_effects p err s0) as [Ed Er].
      split; [| split; [| split]].
      * unfold lookup_entry in *.
        destruct Ec as [-> | [-> | ->]]; cbn;
          rewrite ?lookup_delete_ne, ?lookup_insert_ne by exact Hne; exact Hp.
      * rewrite Ew. cbn. intros Hin'. by apply elem_of_remove_first in Hin'.
      * destruct Er as [-> | ->]; cbn; [eauto |].
        exists (calls ++ [Disconnect (uuid p)]). rewrite Hc, app_assoc.
        split; [reflexivity |]. rewrite elem_of_app, list_elem_of_singleton.
        intros [Hin' | [=]]. done.
      * rewrite Ed. cbn. eauto.
  - split; [exact Hp |]. split; [exact Hw |]. split.
    + exists []. rewrite app_nil_r. split; [reflexivity | apply not_elem_of_nil].
    + exists []. rewrite app_nil_r. split; [reflexivity |].
      intros r Hr. by apply elem_of_nil in Hr.
Qed.

(** After a failed connection, two more discoveries of the sensor change
    nothing. *)
Lemma unawaited_pending_entry_is_stuck_witness :
  lookup_entry "a1"
    (discover_listener (Samples.sensor Samples.cold_frame) 4
       (discover_listener (Samples.sensor Samples.frame) 3
          (set_connecting []
             (discover_listener (Samples.sensor Samples.frame) 1 Samples.fresh))))
  = Pending.
Proof.
  refine (proj1 (unawaited_pending_entry_is_stuck "a1"
            [Discovered (Samples.sensor Samples.frame) 3;
             Discovered (Samples.sensor Samples.cold_frame) 4]
            (set_connecting []
               (discover_listener (Samples.sensor Samples.frame) 1 Samples.fresh))
            _ _ _ _)).
  - vm_compute. reflexivity.
  - apply not_elem_of_nil.
  - reflexivity.
Defined.

(** *** From a first discovery to a delivered reading *)

Lemma discover_listener_absent p now st :
  passes_filters p = true ->
  lookup_entry (uuid p) st = Absent ->
  discover_listener p now st
  = connect_ p (set_uuid_to_address_ (<[uuid p := None]> (uuid_to_address_ st)) st).
Proof.
  intros Hp Habs. apply passes_filters_spec in Hp as (b & Hn & Hd & Hl & Hc).
  apply lookup_entry_absent in Habs. unfold discover_listener.
  rewrite (onDiscover_passed p now st b Hn Hd Hl Hc), Habs. reflexivity.
Qed.

Lemma discover_listener_resolved p now st a :
  passes_filters p = true ->
  lookup_entry (uuid p) st = Resolved a ->
  exists r, discover_listener p now st = callback r st
    /\ RealtimeData.address r = a
    /\ RealtimeData.uuid r = uuid p
    /\ RealtimeData.date r = now.
Proof.
  intros Hp Hres. apply passes_filters_spec in Hp as (b & Hn & Hd & Hl & Hc).
  apply lookup_entry_resolved in Hres. unfold discover_listener.
  rewrite (onDiscover_passed p now st b Hn Hd Hl Hc), Hres. eauto.
Qed.

(** X9. The whole path: a peripheral with a uuid whose entry is absent is
    discovered, its connection completes without error, and it is
    discovered again.  The radio has been asked to connect and then to
    disconnect, once each; the entry holds the address of the peripheral;
    the first discovery delivered nothing and the second one delivered
    exactly one reading, which carries that address and the time of the
    second discovery. *)
Theorem resolution_then_delivery p p' t1 t2 st :
  passes_filters p = true ->
  passes_filters p' = true ->
  uuid p' = uuid p ->
  nonempty (uuid p) = true ->
  lookup_entry (uuid p) st = Absent ->
  exists st3 r,
    run [Discovered p t1; Connected p None; Discovered p' t2] st = Some st3
    /\ delivered st3 = delivered st ++ [r]
    /\ RealtimeData.address r = address p
    /\ RealtimeData.date r = t2
    /\ lookup_entry (uuid p) st3 = Resolved (address p)
    /\ radio st3 = radio st ++ [Connect (uuid p); Disconnect (uuid p)].
Proof.
  intros Hp Hp' Huuid Hne Habs. cbn [run handle].
  rewrite (discover_listener_absent p t1 st Hp Habs).
  rewrite bool_decide_eq_true_2
    by (cbn; rewrite elem_of_app, list_elem_of_singleton; by right).
  set (st1 := set_connecting _ _).
  assert (Hcb : (connect_callback p None st1).2
                = set_disk (Config.save
                              (JSON.Object
                                 (resolved_entries
                                    (<[uuid p := Some (address p)]>
                                       (uuid_to_address_ st1)))) (disk st1))
                    (set_uuid_to_address_
                       (<[uuid p := Some (address p)]> (uuid_to_address_ st1))
                       (call_radio (Disconnect (uuid p)) st1))).
  { unfold connect_callback.
    rewrite bool_decide_eq_false_2 by (intros [? ?]; discriminate).
    rewrite Hne. reflexivity. }
  rewrite Hcb. set (st2 := set_disk _ _).
  assert (Hres : lookup_entry (uuid p') st2 = Resolved (address p)).
  { rewrite Huuid. apply lookup_entry_resolved. cbn. apply lookup_insert_eq. }
  destruct (discover_listener_resolved p' t2 st2 _ Hp' Hres) as (r & -> & Ha & _ & Hd).
  exists (callback r st2), r. split; [reflexivity |].
  split; [reflexivity |]. split; [exact Ha |]. split; [exact Hd |].
  split; [rewrite <- Huuid; exact Hres |].
  cbn. rewrite <- app_assoc. reflexivity.
Qed.

Lemma resolution_then_delivery_witness :
  exists st3 r,
    run [Discovered (Samples.sensor Samples.frame) 1;
         Connected (Samples.sensor Samples.frame) None;
         Discovered (Samples.sensor Samples.cold_frame) 2] Samples.fresh = Some st3
    /\ delivered st3 = [r]
    /\ RealtimeData.address r = "AA:BB:CC:DD:EE:FF".
Proof.
  destruct (resolution_then_delivery (Samples.sensor Samples.frame)
              (Samples.sensor Samples.cold_frame) 1 2 Samples.fresh)
    as (st3 & r & Hrun & Hd & Ha & _);
    [vm_compute; reflexivity | vm_compute; reflexivity | reflexivity | reflexivity
    | reflexivity |].
  exists st3, r. split; [exact Hrun |]. split; [exact Hd | exact Ha].
Defined.

(** X10. A peripheral that reports no uuid is never resolved: when its
    connection completes, the callback removes the entry instead of
    storing the address, asks for the disconnection and writes nothing.
    After the discovery and the completed connection the cache and the
    file are as they were before, so every later discovery starts the
    handshake again. *)
Theorem peripheral_without_uuid_is_never_resolved p t st :
  passes_filters p = true ->
  uuid p = "" ->
  lookup_entry "" st = Absent ->
  exists st2,
    run [Discovered p t; Connected p None] st = Some st2
    /\ uuid_to_address_ st2 = uuid_to_address_ st
    /\ disk st2 = disk st
    /\ delivered st2 = delivered st
    /\ radio st2 = radio st ++ [Connect ""; Disconnect ""].
Proof.
  intros Hp Hu Habs. cbn [run handle]. rewrite <- Hu in Habs.
  rewrite (discover_listener_absent p t st Hp Habs).
  rewrite bool_decide_eq_true_2
    by (cbn; rewrite elem_of_app, list_elem_of_singleton; by right).
  eexists. split; [reflexivity |].
  unfold connect_callback.
  rewrite bool_decide_eq_false_2 by (intros [? ?]; discriminate).
  rewrite Hu. cbn. rewrite ?Hu, <- app_assoc.
  split; [| done]. apply delete_insert_id.
  rewrite <- Hu. by apply lookup_entry_absent.
Qed.

Lemma peripheral_without_uuid_is_never_resolved_witness :
  exists st2,
    run [Discovered {| uuid := ""; address := "AA:BB:CC:DD:EE:FF";
                       advert := advert (Samples.sensor Samples.frame) |} 1;
         Connected {| uuid := ""; address := "AA:BB:CC:DD:EE:FF";
                      advert := advert (Samples.sensor Samples.frame) |} None]
        Samples.fresh = Some st2
    /\ uuid_to_address_ st2 = ∅.
Proof.
  destruct (peripheral_without_uuid_is_never_resolved
              {| uuid := ""; address := "AA:BB:CC:DD:EE:FF";
                 advert := advert (Samples.sensor Samples.frame) |} 1 Samples.fresh)
    as (st2 & Hrun & Hc & _);
    [vm_compute; reflexivity | reflexivity | reflexivity |].
  exists st2. split; [exact Hrun | exact Hc].
Defined.

End EventLoop.

(** ** Config.load, the constructor and the file across restarts *)

Section Restart.
Import IBS_TH1.

Lemma try_load_save data d :
  Config.try_load (Config.save data d) = JSON.parse (JSON.stringify data).
Proof. rewrite save_writes. reflexivity. Qed.

Lemma load_readable d data :
  Config.try_load d = Some data -> Config.load d = (data, d).
Proof. intros H. unfold Config.load. by rewrite H. Qed.

Lemma load_unreadable d :
  Config.try_load d = None ->
  Config.load d = (JSON.Object [], Config.Dir (Some "{}")).
Proof. intros H. unfold Config.load. rewrite H, save_writes. reflexivity. Qed.

Lemma try_load_after_load d :
  Config.try_load (Config.load d).2 = Some (Config.load d).1.
Proof.
  destruct (Config.try_load d) as [data |] eqn:Htry.
  - by rewrite (load_readable d data Htry).
  - by rewrite (load_unreadable d Htry).
Qed.

(** X11. [load] never touches a file that it can read, and after any
    [load], readable file or not, the file holds the text of what was
    returned: a second [load] returns the same value and writes nothing. *)
Theorem load_is_idempotent (d : Config.storage) :
  Config.load (Config.load d).2 = Config.load d
  /\ (forall data, Config.try_load d = Some data -> Config.load d = (data, d))
  /\ Config.try_load (Config.load d).2 = Some (Config.load d).1.
Proof.
  split; [| split; [apply load_readable | apply try_load_after_load]].
  rewrite (load_readable _ _ (try_load_after_load d)).
  by destruct (Config.load d).
Qed.

Lemma entries_of_strings (m : list (string * string)) :
  NoDup m.*1 ->
  exists cache, entries (JSON.of_strings m) = Some cache
    /\ forall id a, cache !! id = Some (Some a) <-> (id, a) ∈ m.
Proof.
  induction m as [| [k a0] m IH]; intros Hnd.
  - exists ∅. split; [reflexivity |]. intros id a.
    rewrite lookup_empty, elem_of_nil. split; [discriminate | done].
  - rewrite fmap_cons, NoDup_cons in Hnd. destruct Hnd as [Hk Hnd].
    destruct (IH Hnd) as (cache & Hc & Hl).
    exists (<[k := Some a0]> cache).
    split; [unfold JSON.of_strings in *; cbn [map entries fst snd]; by rewrite Hc |].
    intros id a. rewrite elem_of_cons, lookup_insert.
    destruct (decide (k = id)) as [<- | Hne].
    + split; [intros [= ->]; by left |].
      intros [[= ->] | Hin]; [reflexivity |].
      exfalso. apply Hk, list_elem_of_fmap. by exists (k, a).
    + rewrite Hl. split; [by right |]. intros [[= -> _] | Hin]; done.
Qed.

(** X12. An instance constructed over a missing file, or over a file that
    is not JSON, starts with an empty cache and leaves the file [{}]
    behind. *)
Theorem constructor_without_file (d : Config.storage) :
  (Config.readFileSync d = None
   \/ exists text, Config.readFileSync d = Some text /\ JSON.parse text = None) ->
  constructor d = Some (initial ∅ (Config.Dir (Some "{}"))).
Proof.
  intros Hfail.
  assert (Htry : Config.try_load d = None).
  { unfold Config.try_load. destruct Hfail as [-> | (text & -> & Hp)]; done. }
  unfold constructor. rewrite (load_unreadable d Htry). reflexivity.
Qed.

Lemma constructor_without_file_witness :
  constructor Config.NoDir = Some (initial ∅ (Config.Dir (Some "{}")))
  /\ constructor (Config.Dir (Some "[1,"))
     = Some (initial ∅ (Config.Dir (Some "{}"))).
Proof.
  split.
  - apply constructor_without_file. left. reflexivity.
  - apply constructor_without_file. right. eexists. split; reflexivity.
Defined.

Lemma constructor_file d st0 :
  constructor d = Some st0 -> awaited_are_pending st0 /\ file_lists_resolved st0.
Proof.
  unfold constructor. pose proof (try_load_after_load d) as Htry.
  destruct (Config.load d) as [data d']. cbn [fst snd] in Htry.
  destruct data as [| | | | | props]; try discriminate.
  destruct (entries props) as [cache |] eqn:He; [| discriminate].
  intros [= <-]. split; [apply awaited_initial |].
  exists props, cache. split; [exact Htry |]. split; [exact He |].
  intros id a. by rewrite lookup_entry_resolved.
Qed.

(** The three ways in which the callback of [connect] ends. *)
Lemma connect_callback_cases p err st :
  (connect_callback p err st).2 = st
  \/ (connect_callback p err st).2
     = set_uuid_to_address_ (delete (uuid p) (uuid_to_address_ st))
         (call_radio (Disconnect (uuid p)) st)
  \/ (connect_callback p err st).2
     = set_disk
         (Config.save
            (JSON.Object
               (resolved_entries (<[uuid p := Some (address p)]> (uuid_to_address_ st))))
            (disk st))
         (set_uuid_to_address_ (<[uuid p := Some (address p)]> (uuid_to_address_ st))
            (call_radio (Disconnect (uuid p)) st)).
Proof.
  unfold connect_callback.
  destruct (bool_decide (is_Some err)); [by left |].
  destruct (false || negb (nonempty (uuid p))); [right; by left | right; by right].
Qed.

Lemma handle_keeps_file e st st' :
  awaited_are_pending st -> file_lists_resolved st ->
  handle e st = Some st' -> file_lists_resolved st'.
Proof.
  intros [Hnd Hpend] (props & cache & Htry & He & Hl) Hh.
  destruct e as [p now | p err]; cbn [handle] in Hh.
  - injection Hh as <-.
    destruct (discover_listener_effects p now st) as (Hdisk & _ & _).
    destruct (discover_listener_cache p now st) as (Ec & _).
    exists props, cache. rewrite Hdisk. split; [exact Htry |]. split; [exact He |].
    intros id a. rewrite Hl, !lookup_entry_resolved, Ec.
    destruct (onDiscover_state p now st) as [-> | [Habs ->]]; [reflexivity |].
    cbn. rewrite lookup_insert. destruct (decide (uuid p = id)) as [<- | Hne];
      [| reflexivity].
    rewrite Habs. split; discriminate.
  - destruct (bool_decide_reflect (uuid p ∈ connecting st)) as [Hin | Hin];
      [| discriminate].
    injection Hh as <-. pose proof (Hpend _ Hin) as Hp.
    apply lookup_entry_pending in Hp.
    set (st0 := set_connecting (remove_first (uuid p) (connecting st)) st).
    destruct (connect_callback_cases p err st0) as [-> | [-> | ->]].
    + exists props, cache. split; [exact Htry |]. split; [exact He |]. exact Hl.
    + exists props, cache. split; [exact Htry |]. split; [exact He |].
      intros id a. rewrite Hl, !lookup_entry_resolved. cbn.
      rewrite lookup_delete. destruct (decide (uuid p = id)) as [<- | Hne];
        [| reflexivity].
      rewrite Hp. split; discriminate.
    + unfold file_lists_resolved. cbn [disk set_disk]. rewrite resolved_entries_pairs.
      destruct (entries_of_strings _ (NoDup_resolved_pairs
                  (<[uuid p := Some (address p)]> (uuid_to_address_ st0))))
        as (cache' & He' & Hl').
      exists (JSON.of_strings
                (resolved_pairs (<[uuid p := Some (address p)]> (uuid_to_address_ st0)))),
             cache'.
      split; [| split; [exact He' |]].
      * rewrite try_load_save.
        apply parse_stringify_of_strings, NoDup_resolved_pairs.
      * intros id a. rewrite Hl', elem_of_resolved_pairs, lookup_entry_resolved.
        reflexivity.
Qed.

(** X13. From the construction of an instance on, whatever events the
    radio raises, the file and the cache agree on the resolved entries.
    So an instance constructed at any later moment over the file that
    this one leaves starts with exactly the addresses that this one has
    resolved; what was pending here is not an address there. *)
Theorem restart_recovers_resolved_entries d st0 events st :
  constructor d = Some st0 ->
  run events st0 = Some st ->
  exists restarted,
    constructor (disk st) = Some restarted
    /\ disk restarted = disk st
    /\ connecting restarted = []
    /\ forall id a,
         lookup_entry id restarted = Resolved a <-> lookup_entry id st = Resolved a.
Proof.
  intros Hc Hrun.
  pose (P := fun s : state => awaited_are_pending s /\ file_lists_resolved s).
  assert (HP : P st).
  { apply (run_invariant P) with (events := events) (st := st0); [| | exact Hrun].
    - intros e s s' [Ha Hf] Hh. split.
      + by apply (handle_turn e s s').
      + by apply (handle_keeps_file e s s').
    - by apply (constructor_file d). }
  destruct HP as [_ (props & cache & Htry & He & Hl)].
  exists (initial cache (disk st)).
  unfold constructor. rewrite (load_readable _ _ Htry), He.
  split; [reflexivity |]. split; [reflexivity |]. split; [reflexivity |].
  intros id a. rewrite <- Hl. apply lookup_entry_resolved.
Qed.

(** An instance that resolves the sensor, and the instance constructed
    over its file. *)
Lemma restart_recovers_resolved_entries_witness :
  exists restarted,
    constructor
      (disk (connect_callback (Samples.sensor Samples.frame) None
               (set_connecting []
                  (discover_listener (Samples.sensor Samples.frame) 1
                     (initial ∅ (Config.Dir (Some "{}")))))).2)
    = Some restarted
    /\ lookup_entry "a1" restarted = Resolved "AA:BB:CC:DD:EE:FF".
Proof.
  destruct (restart_recovers_resolved_entries Config.NoDir
              (initial ∅ (Config.Dir (Some "{}")))
              [Discovered (Samples.sensor Samples.frame) 1;
               Connected (Samples.sensor Samples.frame) None]
              (connect_callback (Samples.sensor Samples.frame) None
                 (set_connecting []
                    (discover_listener (Samples.sensor Samples.frame) 1
                       (initial ∅ (Config.Dir (Some "{}")))))).2)
    as (restarted & Hc & _ & _ & Hl).
  - vm_compute. reflexivity.
  - vm_compute. reflexivity.
  - exists restarted. split; [exact Hc |]. apply Hl. vm_compute. reflexivity.
Defined.

End Restart.

(** ** subscribeRealtimeData and unsubscribeRealtimeData *)

Section Subscriptions.
Import IBS_TH1 Session.

Lemma listeners_run_resolved p now r ks : forall i s,
  (forall t, onDiscover_ p t (instance s) = (Resolve (at_time t r), instance s)) ->
  instance (discover_listeners_run ks i p now s) = instance s
  /\ received (discover_listeners_run ks i p now s)
     = received s ++ imap (fun j k => (k, at_time (now (i + j)%nat) r)) ks.
Proof.
  induction ks as [| k ks IH]; intros i s Hr.
  - cbn. by rewrite app_nil_r.
  - cbn [discover_listeners_run imap].
    assert (Hk : discover_listener k p (now i) s = call_back k (at_time (now i) r) s).
    { unfold discover_listener. rewrite Hr. by destruct s. }
    rewrite Hk. destruct (IH (S i) (call_back k (at_time (now i) r) s) Hr) as [-> ->].
    cbn. rewrite <- app_assoc, Nat.add_0_r. split; [reflexivity |].
    do 2 f_equal. apply imap_ext. intros j k' _. cbn. do 3 f_equal. lia.
Qed.

Lemma listeners_run_unchanged p now ks : forall i s,
  (forall t, (onDiscover_ p t (instance s)).2 = instance s) ->
  (forall t r, (onDiscover_ p t (instance s)).1 <> Resolve r) ->
  discover_listeners_run ks i p now s = s.
Proof.
  induction ks as [| k ks IH]; intros i s Hs Hr; [reflexivity |].
  cbn [discover_listeners_run].
  assert (Hk : discover_listener k p (now i) s = s).
  { unfold discover_listener. specialize (Hs (now i)). specialize (Hr (now i)).
    destruct (onDiscover_ p (now i) (instance s)) as [[r | ?] st'].
    - by destruct (Hr r).
    - cbn in Hs. subst st'. by destruct s. }
  rewrite Hk. by apply IH.
Qed.

Lemma onDiscover_of_resolved p st a :
  passes_filters p = true ->
  lookup_entry (uuid p) st = Resolved a ->
  exists r, RealtimeData.address r = a
    /\ forall t, onDiscover_ p t st = (Resolve (at_time t r), st).
Proof.
  intros Hp Hres. apply passes_filters_spec in Hp as (b & Hn & Hd & Hl & Hc).
  apply lookup_entry_resolved in Hres.
  pose proof (onDiscover_passed p 0 st b Hn Hd Hl Hc) as H0. rewrite Hres in H0.
  match type of H0 with _ = (Resolve ?r, _) => exists r end.
  split; [reflexivity |]. intros t.
  rewrite (onDiscover_passed p t st b Hn Hd Hl Hc), Hres. reflexivity.
Qed.

Lemma subscribe_powered k s :
  noble_state s = "poweredOn" -> subscribeRealtimeData k s = scanStart k s.
Proof. intros Hon. unfold subscribeRealtimeData. by rewrite Hon. Qed.

Lemma every_listener_delivers_aux p now s a :
  passes_filters p = true ->
  lookup_entry (uuid p) (instance s) = Resolved a ->
  exists r,
    RealtimeData.address r = a
    /\ received (emit_discover p now s)
       = received s ++ imap (fun i k => (k, at_time (now i) r)) (discover_listeners s)
    /\ instance (emit_discover p now s) = instance s.
Proof.
  intros Hp Hres.
  destruct (onDiscover_of_resolved p (instance s) a Hp Hres) as (r & Ha & Hr).
  exists r. split; [exact Ha |]. unfold emit_discover.
  destruct (listeners_run_resolved p now r (discover_listeners s) 0 s Hr) as [-> ->].
  done.
Qed.

(** X14. When the radio reports a peripheral that passes the filters and
    whose entry is resolved, every registered listener hands the reading
    to its callback, once each and in the order of registration: a
    callback that has been subscribed twice is called twice for the same
    advertisement.  The readings differ only in the time at which each
    listener read the clock.  The cache is left as it was. *)
Theorem every_listener_delivers p now s a :
  passes_filters p = true ->
  lookup_entry (uuid p) (instance s) = Resolved a ->
  exists r,
    RealtimeData.address r = a
    /\ received (emit_discover p now s)
       = received s ++ imap (fun i k => (k, at_time (now i) r)) (discover_listeners s)
    /\ length (received (emit_discover p now s))
       = (length (received s) + length (discover_listeners s))%nat
    /\ instance (emit_discover p now s) = instance s.
Proof.
  intros Hp Hres.
  destruct (every_listener_delivers_aux p now s a Hp Hres) as (r & Ha & Hrec & Hi).
  exists r. split; [exact Ha |]. split; [exact Hrec |]. split; [| exact Hi].
  rewrite Hrec, length_app, length_imap. reflexivity.
Qed.

Lemma every_listener_delivers_witness :
  exists r,
    received (emit_discover (Samples.sensor Samples.frame) (fun i => 9 + Z.of_nat i)
                (subscribeRealtimeData 1
                   (subscribeRealtimeData 1 (start Samples.known "poweredOn"))))
    = [(1%nat, at_time 9 r); (1%nat, at_time 10 r)].
Proof.
  destruct (every_listener_delivers (Samples.sensor Samples.frame)
              (fun i => 9 + Z.of_nat i)
              (subscribeRealtimeData 1
                 (subscribeRealtimeData 1 (start Samples.known "poweredOn")))
              "AA:BB:CC:DD:EE:FF")
    as (r & _ & Hrec & _);
    [vm_compute; reflexivity | vm_compute; reflexivity |].
  exists r. exact Hrec.
Defined.

(** X15. When the radio reports a peripheral that passes the filters and
    whose entry is absent, the listeners together start one handshake,
    however many they are: the first one marks the entry pending and asks
    for the connection, the others find it pending.  No callback is
    called. *)
Theorem listeners_share_one_handshake p now s :
  passes_filters p = true ->
  lookup_entry (uuid p) (instance s) = Absent ->
  discover_listeners s <> [] ->
  radio (instance (emit_discover p now s))
  = radio (instance s) ++ [Connect (uuid p)]
  /\ lookup_entry (uuid p) (instance (emit_discover p now s)) = Pending
  /\ received (emit_discover p now s) = received s.
Proof.
  intros Hp Habs Hne. unfold emit_discover.
  destruct (discover_listeners s) as [| k ks]; [done |].
  cbn [discover_listeners_run].
  pose proof Hp as Hp'. apply passes_filters_spec in Hp' as (b & Hn & Hd & Hl & Hc).
  set (st1 := connect_ p (set_uuid_to_address_
                            (<[uuid p := None]> (uuid_to_address_ (instance s)))
                            (instance s))).
  assert (Hk : discover_listener k p (now 0%nat) s = set_instance st1 s).
  { unfold discover_listener.
    rewrite (onDiscover_passed p _ _ b Hn Hd Hl Hc).
    apply lookup_entry_absent in Habs. by rewrite Habs. }
  rewrite Hk.
  assert (Hpend : uuid_to_address_ st1 !! uuid p = Some None)
    by (cbn; apply lookup_insert_eq).
  rewrite listeners_run_unchanged.
  - cbn. split; [reflexivity |]. split; [| reflexivity].
    unfold lookup_entry. cbn. by rewrite lookup_insert_eq.
  - intros t. cbn [instance set_instance].
    rewrite (onDiscover_passed p t _ b Hn Hd Hl Hc), Hpend. reflexivity.
  - intros t r. cbn [instance set_instance].
    rewrite (onDiscover_passed p t _ b Hn Hd Hl Hc), Hpend. discriminate.
Qed.

Lemma listeners_share_one_handshake_witness :
  radio (instance
           (emit_discover (Samples.sensor Samples.frame) (fun _ => 9)
              (subscribeRealtimeData 2
                 (subscribeRealtimeData 1 (start Samples.fresh "poweredOn")))))
  = [Connect "a1"].
Proof.
  refine (proj1 (listeners_share_one_handshake (Samples.sensor Samples.frame)
            (fun _ => 9)
            (subscribeRealtimeData 2
               (subscribeRealtimeData 1 (start Samples.fresh "poweredOn")))
            _ _ _)).
  - vm_compute. reflexivity.
  - reflexivity.
  - discriminate.
Defined.

(** X16. [unsubscribeRealtimeData] asks the radio to stop scanning but
    detaches nothing: the listeners of ['discover'] stay registered.  So
    when a callback is subscribed while the radio is powered on, then
    unsubscribed, and any callback is subscribed afterwards, the next
    advertisement of a resolved peripheral is handed to the unsubscribed
    callback as well. *)
Theorem unsubscribe_detaches_nothing k k' p now s a :
  noble_state s = "poweredOn" ->
  passes_filters p = true ->
  lookup_entry (uuid p) (instance s) = Resolved a ->
  let s' := subscribeRealtimeData k' (unsubscribeRealtimeData (subscribeRealtimeData k s)) in
  discover_listeners (unsubscribeRealtimeData (subscribeRealtimeData k s))
  = discover_listeners s ++ [k]
  /\ scans s' = scans s ++ [StartScanning; StopScanning; StartScanning]
  /\ exists r,
       RealtimeData.address r = a
       /\ received (emit_discover p now s')
          = received s
            ++ imap (fun i k => (k, at_time (now i) r))
                    (discover_listeners s ++ [k; k']).
Proof.
  intros Hon Hp Hres s'.
  assert (Hs' : s' = scanStart k' (unsubscribeRealtimeData (scanStart k s))).
  { unfold s'. rewrite (subscribe_powered k s Hon).
    apply subscribe_powered. exact Hon. }
  split; [by rewrite (subscribe_powered k s Hon) |].
  rewrite Hs'. split; [cbn; by rewrite <- !app_assoc |].
  destruct (every_listener_delivers_aux p now
              (scanStart k' (unsubscribeRealtimeData (scanStart k s))) a Hp Hres)
    as (r & Ha & Hrec & _).
  exists r. split; [exact Ha |]. rewrite Hrec. cbn. by rewrite <- !app_assoc.
Qed.

Lemma unsubscribe_detaches_nothing_witness :
  exists r,
    received (emit_discover (Samples.sensor Samples.frame) (fun _ => 9)
                (subscribeRealtimeData 2
                   (unsubscribeRealtimeData
                      (subscribeRealtimeData 1 (start Samples.known "poweredOn")))))
    = [(1%nat, at_time 9 r); (2%nat, at_time 9 r)].
Proof.
  destruct (unsubscribe_detaches_nothing 1 2 (Samples.sensor Samples.frame)
              (fun _ => 9)
              (start Samples.known "poweredOn") "AA:BB:CC:DD:EE:FF")
    as (_ & _ & r & _ & Hrec);
    [reflexivity | vm_compute; reflexivity | vm_compute; reflexivity |].
  exists r. exact Hrec.
Defined.

(** X17. A subscription made while the radio is not powered on waits for
    the radio, and [unsubscribeRealtimeData] does not cancel it: when the
    radio reports ['poweredOn'] afterwards, the scan is started and the
    listener of the unsubscribed callback is registered. *)
Theorem unsubscribe_does_not_cancel_waiting_subscription k s :
  noble_state s <> "poweredOn" ->
  state_listeners s = [] ->
  scans (subscribeRealtimeData k s) = scans s
  /\ discover_listeners (subscribeRealtimeData k s) = discover_listeners s
  /\ scans (emit_stateChange "poweredOn"
              (unsubscribeRealtimeData (subscribeRealtimeData k s)))
     = scans s ++ [StopScanning; StartScanning]
  /\ discover_listeners (emit_stateChange "poweredOn"
                           (unsubscribeRealtimeData (subscribeRealtimeData k s)))
     = discover_listeners s ++ [k]
  /\ uncaught (emit_stateChange "poweredOn"
                 (unsubscribeRealtimeData (subscribeRealtimeData k s)))
     = uncaught s.
Proof.
  intros Hoff Hnone.
  assert (Hsub : subscribeRealtimeData k s = on_stateChange (WhenPowered k) s).
  { unfold subscribeRealtimeData.
    destruct (String.eqb_spec (noble_state s) "poweredOn"); done. }
  rewrite Hsub. unfold emit_stateChange, unsubscribeRealtimeData.
  cbn [state_listeners set_noble_state call_noble on_stateChange scans
       discover_listeners]. rewrite Hnone.
  cbn. by rewrite <- app_assoc.
Qed.

Lemma unsubscribe_does_not_cancel_waiting_subscription_witness :
  scans (emit_stateChange "poweredOn"
           (unsubscribeRealtimeData
              (subscribeRealtimeData 1 (start Samples.fresh "poweredOff"))))
  = [StopScanning; StartScanning].
Proof.
  refine (proj1 (proj2 (proj2
            (unsubscribe_does_not_cancel_waiting_subscription 1
               (start Samples.fresh "poweredOff") _ _)))).
  - discriminate.
  - reflexivity.
Defined.

Lemma state_listeners_run_not_powered ls k state s :
  state <> "poweredOn" ->
  WhenPowered k ∈ ls ->
  state_listeners_run ls state s
  = throw "TypeError: this.scanStop is not a function" s.
Proof.
  intros Hoff. induction ls as [| l ls IH]; intros Hk.
  - by apply elem_of_nil in Hk.
  - cbn [state_listeners_run]. destruct l as [k' |]; cbn [state_listener_run].
    + destruct (String.eqb_spec state "poweredOn"); done.
    + apply elem_of_cons in Hk as [[=] | Hk]. by apply IH.
Qed.

(** X18. Once a subscription has been made while the radio was not
    powered on, every report of a state other than ['poweredOn'] ends in
    a TypeError: the listener calls [this.scanStop], which does not
    exist.  The radio is not asked to stop scanning, nothing else of the
    session changes, and the listeners registered after it are not run. *)
Theorem power_loss_raises_type_error k state s :
  state <> "poweredOn" ->
  WhenPowered k ∈ state_listeners s ->
  emit_stateChange state s
  = throw "TypeError: this.scanStop is not a function" (set_noble_state state s)
  /\ scans (emit_stateChange state s) = scans s
  /\ discover_listeners (emit_stateChange state s) = discover_listeners s.
Proof.
  intros Hoff Hk.
  assert (He : emit_stateChange state s
               = throw "TypeError: this.scanStop is not a function"
                   (set_noble_state state s)).
  { unfold emit_stateChange. by apply (state_listeners_run_not_powered _ k). }
  rewrite He. done.
Qed.

Lemma power_loss_raises_type_error_witness :
  uncaught (emit_stateChange "poweredOff"
              (emit_stateChange "poweredOn"
                 (subscribeRealtimeData 1 (start Samples.fresh "unknown"))))
  = ["TypeError: this.scanStop is not a function"]
  /\ scans (emit_stateChange "poweredOff"
              (emit_stateChange "poweredOn"
                 (subscribeRealtimeData 1 (start Samples.fresh "unknown"))))
     = [StartScanning].
Proof.
  destruct (power_loss_raises_type_error 1 "poweredOff"
              (emit_stateChange "poweredOn"
                 (subscribeRealtimeData 1 (start Samples.fresh "unknown"))))
    as (He & Hs & _); [discriminate | left |].
  split; [by rewrite He | by rewrite Hs].
Defined.

End Subscriptions.
